(** * The undo/redo history manager of [examples/react/src/demo.ts]

    A shallow embedding of [useHistoryManager] (demo.ts, lines 79-152): the
    three reference cells [history], [currentIndex] and [isTransacting], the
    operations closed over them, and the part of the JavaScript object store
    they read and allocate in.  Snapshots are JavaScript objects, so copies
    and aliasing are modelled on an explicit heap of cells. *)

From Stdlib Require Import ZArith Lia.
From stdpp Require Import base option list gmap strings pretty.

(** ** JavaScript values and the object store *)

(** Store addresses; allocation appends to the store. *)
Abbreviation loc := nat.

(** Numbers are modelled as integers: the manager never computes with the
    numbers stored in a diagram, it only copies them. *)
Inductive value :=
| VUndef
| VNull
| VBool (b : bool)
| VNum (n : Z)
| VStr (s : string)
| VRef (l : loc).

Inductive cell :=
| CObj (props : gmap string value)
| CArr (elems : list value).

#[global] Instance value_eq_dec : EqDecision value.
Proof. solve_decision. Defined.

#[global] Instance cell_eq_dec : EqDecision cell.
Proof. solve_decision. Defined.

(** [TypeError] is the JavaScript exception.  [Stuck] marks the read of a
    reference that the store does not hold, which no JavaScript execution
    produces. *)
Inductive exn := TypeError | Stuck.

Inductive outcome (A : Type) :=
| Ok (a : A)
| Throw (e : exn).
Arguments Ok {A} a.
Arguments Throw {A} e.

(** ToBoolean. *)
Definition truthy (v : value) : bool :=
  match v with
  | VUndef | VNull => false
  | VBool b => b
  | VNum n => negb (n =? 0)%Z
  | VStr s => negb (String.eqb s "")
  | VRef _ => true
  end.

Definition string_chars (s : string) : list value :=
  (λ a, VStr (String a EmptyString)) <$> String.list_ascii_of_string s.

(** The own enumerable properties of an array (or string): one per index. *)
Definition index_props (xs : list value) : gmap string value :=
  list_to_map (imap (λ i x, (pretty i, x)) xs).

(** The properties an object spread [{...v}] copies from [v]. *)
Definition own_props (h : list cell) (v : value) : option (gmap string value) :=
  match v with
  | VRef l =>
      match h !! l with
      | Some (CObj m) => Some m
      | Some (CArr xs) => Some (index_props xs)
      | None => None
      end
  | VStr s => Some (index_props (string_chars s))
  | _ => Some ∅
  end.

(** Property read [v.k] or [v[k]], own data properties only (methods are not
    values of this model). *)
Definition get_prop (h : list cell) (v : value) (k : string) : outcome value :=
  match v with
  | VUndef | VNull => Throw TypeError
  | VBool _ | VNum _ => Ok VUndef
  | VStr s =>
      if decide (k = "length") then Ok (VNum (Z.of_nat (String.length s)))
      else Ok (default VUndef (index_props (string_chars s) !! k))
  | VRef l =>
      match h !! l with
      | Some (CObj m) => Ok (default VUndef (m !! k))
      | Some (CArr xs) =>
          if decide (k = "length") then Ok (VNum (Z.of_nat (length xs)))
          else Ok (default VUndef (index_props xs !! k))
      | None => Throw Stuck
      end
  end.

(** The elements an array spread [[...v]] iterates over. *)
Definition iterate (h : list cell) (v : value) : outcome (list value) :=
  match v with
  | VRef l =>
      match h !! l with
      | Some (CArr xs) => Ok xs
      | Some (CObj _) => Throw TypeError
      | None => Throw Stuck
      end
  | VStr s => Ok (string_chars s)
  | _ => Throw TypeError
  end.

(** [Array.prototype.slice] on the elements of an array. *)
Definition rel_index (len i : Z) : Z :=
  if (i <? 0)%Z then Z.max (len + i) 0 else Z.min i len.

Definition js_slice {A} (xs : list A) (start : Z) (stop : option Z) : list A :=
  let len := Z.of_nat (length xs) in
  let k := rel_index len start in
  let final := match stop with None => len | Some e => rel_index len e end in
  take (Z.to_nat (final - k)) (drop (Z.to_nat k) xs).

(** ** The reference cells of the hook and the world they live in

    The array in [history.current] is built anew at every assignment and
    never handed out, so the cell holds its elements directly: references
    to the snapshot objects, which live in the store. *)

Record refs := Refs {
  history : list loc;
  currentIndex : Z;
  isTransacting : bool
}.

Record world := World {
  heap : list cell;
  mgr : refs;
  console : list (list value)
}.

Definition set_heap (h : list cell) (w : world) : world :=
  World h (mgr w) (console w).
Definition set_mgr (r : refs) (w : world) : world :=
  World (heap w) r (console w).

(** [history.current[i]]: the stored reference, or [undefined]. *)
Definition js_index (xs : list loc) (i : Z) : value :=
  if (i <? 0)%Z then VUndef else default VUndef (VRef <$> xs !! Z.to_nat i).

(** ** State and exception monad *)

Definition M (A : Type) : Type := world → outcome A * world.

#[global] Instance M_ret : MRet M := λ A a w, (Ok a, w).
#[global] Instance M_bind : MBind M := λ A B k m w,
  match m w with
  | (Ok a, w') => k a w'
  | (Throw e, w') => (Throw e, w')
  end.

Definition lift {A} (f : list cell → outcome A) : M A := λ w, (f (heap w), w).
Definition get_refs : M refs := λ w, (Ok (mgr w), w).
Definition put_refs (r : refs) : M unit := λ w, (Ok tt, set_mgr r w).

Definition alloc (c : cell) : M loc :=
  λ w, (Ok (length (heap w)), set_heap (heap w ++ [c]) w).

Definition console_error (args : list value) : M unit :=
  λ w, (Ok tt, World (heap w) (mgr w) (console w ++ [args])).

Definition prop (v : value) (k : string) : M value := lift (λ h, get_prop h v k).

(** [{...n}] *)
Definition spread_object (n : value) : M value :=
  p ← lift (λ h, match own_props h n with Some p => Ok p | None => Throw Stuck end);
  l ← alloc (CObj p);
  mret (VRef l).

(** The callbacks of [Array.prototype.map], element by element. *)
Fixpoint map_elems (f : value → nat → M value) (i : nat) (xs : list value)
  : M (list value) :=
  match xs with
  | [] => mret []
  | x :: r => y ← f x i; ys ← map_elems f (S i) r; mret (y :: ys)
  end.

(** [arr.map(f)]: a call of anything but an array's [map] is a TypeError.
    The result array is allocated once the callbacks have run; addresses are
    not observable, so the order of allocation is immaterial. *)
Definition array_map (f : value → nat → M value) (arr : value) : M value :=
  xs ← lift (λ h,
    match arr with
    | VRef l =>
        match h !! l with
        | Some (CArr xs) => Ok xs
        | Some (CObj _) => Throw TypeError
        | None => Throw Stuck
        end
    | _ => Throw TypeError
    end);
  ys ← map_elems f 0 xs;
  l ← alloc (CArr ys);
  mret (VRef l).

(** [[...v]] *)
Definition array_spread (v : value) : M value :=
  xs ← lift (λ h, iterate h v);
  l ← alloc (CArr xs);
  mret (VRef l).

(** ** The history manager *)

(** The object literal
    [{ nodes: s.nodes.map(n => ({ ...n })), edges: [...s.edges] }]
    of lines 92-95, 101-104 and 146-149. *)
Definition snapshot_literal (s : value) : M loc :=
  ns ← prop s "nodes";
  na ← array_map (λ n _, spread_object n) ns;
  es ← prop s "edges";
  ea ← array_spread es;
  alloc (CObj {[ "nodes" := na; "edges" := ea ]}).

Definition addState (state : value) : M value :=
  n ← prop state "nodes";
  invalid ← (if truthy n
             then e ← prop state "edges"; mret (negb (truthy e))
             else mret true);
  if (invalid : bool) then
    console_error [VStr "Invalid state:"; state];;
    mret VUndef
  else
    r ← get_refs;
    let kept := js_slice (history r) 0 (Some (currentIndex r + 1)%Z) in
    s ← snapshot_literal state;
    let h' := js_slice (kept ++ [s]) (-50) None in
    put_refs (Refs h' (currentIndex r) (isTransacting r));;
    r ← get_refs;
    put_refs (Refs (history r) (Z.of_nat (length (history r)) - 1) (isTransacting r));;
    mret VUndef.

Definition initialize (initialState : value) : M value :=
  s ← snapshot_literal initialState;
  r ← get_refs;
  put_refs (Refs [s] (currentIndex r) (isTransacting r));;
  r ← get_refs;
  put_refs (Refs (history r) 0 (isTransacting r));;
  mret VUndef.

Definition undo : M value :=
  r ← get_refs;
  if (0 <? currentIndex r)%Z then
    put_refs (Refs (history r) (currentIndex r - 1) (isTransacting r));;
    r ← get_refs;
    mret (js_index (history r) (currentIndex r))
  else mret VNull.

Definition redo : M value :=
  r ← get_refs;
  if (currentIndex r <? Z.of_nat (length (history r)) - 1)%Z then
    put_refs (Refs (history r) (currentIndex r + 1) (isTransacting r));;
    r ← get_refs;
    mret (js_index (history r) (currentIndex r))
  else mret VNull.

Definition startTransaction : M value :=
  r ← get_refs;
  put_refs (Refs (history r) (currentIndex r) true);;
  mret VUndef.

Definition endTransaction (state : value) : M value :=
  r ← get_refs;
  put_refs (Refs (history r) (currentIndex r) false);;
  addState state.

Definition getCurrentIndex : M value :=
  r ← get_refs; mret (VNum (currentIndex r)).

Definition getHistoryLength : M value :=
  r ← get_refs; mret (VNum (Z.of_nat (length (history r)))).

Definition getCurrentState : M value :=
  r ← get_refs; mret (js_index (history r) (currentIndex r)).

(** The callback of [getTimeline]'s [map]. *)
Definition timeline_item (state : value) (i : nat) : M value :=
  r ← get_refs;
  s ← snapshot_literal state;
  l ← alloc (CObj {[ "id" := VNum (Z.of_nat i);
                     "active" := VBool (Z.of_nat i =? currentIndex r)%Z;
                     "state" := VRef s ]});
  mret (VRef l).

Definition getTimeline : M value :=
  r ← get_refs;
  items ← map_elems timeline_item 0 (VRef <$> history r);
  l ← alloc (CArr items);
  mret (VRef l).

(** The ten entry points the hook returns (lines 133-151). *)
Inductive call :=
| Initialize (s : value)
| AddState (s : value)
| Undo
| Redo
| StartTransaction
| EndTransaction (s : value)
| GetCurrentIndex
| GetHistoryLength
| GetCurrentState
| GetTimeline.

Definition exec (c : call) : M value :=
  match c with
  | Initialize s => initialize s
  | AddState s => addState s
  | Undo => undo
  | Redo => redo
  | StartTransaction => startTransaction
  | EndTransaction s => endTransaction s
  | GetCurrentIndex => getCurrentIndex
  | GetHistoryLength => getHistoryLength
  | GetCurrentState => getCurrentState
  | GetTimeline => getTimeline
  end.

(** The [useRef] initialisers of lines 80-82. *)
Definition initial_refs : refs := Refs [] (-1) false.

(** The worlds a session can be in: the hook starts with its initial cells
    on any store, the component calls entry points, and between calls the
    rest of the program changes the store as it likes. *)
Inductive reachable : world → Prop :=
| reach_start h : reachable (World h initial_refs [])
| reach_call c w : reachable w → reachable (exec c w).2
| reach_client h w : reachable w → reachable (set_heap h w).

(** [addState] called once per state, reading the current entry after each
    call: the references of the entries pushed, in order. *)
Fixpoint addStates (sts : list value) : M (list value) :=
  match sts with
  | [] => mret []
  | s :: r =>
      addState s;;
      e ← getCurrentState;
      es ← addStates r;
      mret (e :: es)
  end.

(** ** What a snapshot holds *)

Definition object_at (h : list cell) (v : value) : option (gmap string value) :=
  match v with
  | VRef l => match h !! l with Some (CObj m) => Some m | _ => None end
  | _ => None
  end.

Definition array_at (h : list cell) (v : value) : option (list value) :=
  match v with
  | VRef l => match h !! l with Some (CArr xs) => Some xs | _ => None end
  | _ => None
  end.

(** The content of a diagram state, one level into each node: the own
    properties of every node in order, and the edge references in order.
    It is defined exactly on the states of type [HistoryState]. *)
Definition snapshot_of (h : list cell) (s : value)
  : option (list (gmap string value) * list value) :=
  m ← object_at h s;
  ns ← array_at h (default VUndef (m !! "nodes"));
  es ← array_at h (default VUndef (m !! "edges"));
  ps ← mapM (own_props h) ns;
  Some (ps, es).

Definition ref_loc (v : value) : option loc :=
  match v with VRef l => Some l | _ => None end.

(** The cells a snapshot is made of: the snapshot object, its node array,
    its edge array, and every node record. *)
Definition snapshot_locs (h : list cell) (s : value) : list loc :=
  match ref_loc s, object_at h s with
  | Some l, Some m =>
      let ns := default VUndef (m !! "nodes") in
      l :: omap ref_loc [ns; default VUndef (m !! "edges")]
        ++ omap ref_loc (default [] (array_at h ns))
  | _, _ => []
  end.

(** The cells [snapshot_literal] appends to a store of [base] cells when it
    copies nodes with properties [ps] and edges [es]; the snapshot object is
    the last one, at [snapshot_loc base ps]. *)
Definition copy_cells (base : nat) (ps : list (gmap string value))
  (es : list value) : list cell :=
  (CObj <$> ps) ++
  [ CArr (VRef <$> seq base (length ps));
    CArr es;
    CObj {[ "nodes" := VRef (base + length ps);
            "edges" := VRef (base + length ps + 1) ]} ].

Definition snapshot_loc (base : nat) (ps : list (gmap string value)) : loc :=
  base + length ps + 2.

(** The entries [addState] keeps before it appends: [slice(0, currentIndex + 1)]. *)
Definition kept (r : refs) : list loc :=
  js_slice (history r) 0 (Some (currentIndex r + 1)%Z).

(** The history [addState] leaves when it pushes entry [e]. *)
Definition pushed (r : refs) (e : loc) : list loc :=
  js_slice (kept r ++ [e]) (-50) None.

(** An assignment [o.k = v] made by the rest of the program. *)
Definition set_field (l : loc) (k : string) (v : value) (h : list cell)
  : list cell :=
  match h !! l with
  | Some (CObj m) => <[l := CObj (<[k := v]> m)]> h
  | _ => h
  end.

(** Reading along a path of property names, [v.k1.k2...]. *)
Fixpoint read_path (h : list cell) (v : value) (ks : list string)
  : outcome value :=
  match ks with
  | [] => Ok v
  | k :: r =>
      match get_prop h v k with
      | Ok v' => read_path h v' r
      | Throw e => Throw e
      end
  end.

(** ** A concrete diagram

    Two of the nodes and one of the edges of [initialNodes] and
    [initialEdges] (lines 36-77), laid out in a store. *)
Definition demo_heap : list cell :=
  [ CObj {[ "x" := VNum 100; "y" := VNum 50 ]};
    CObj {[ "id" := VStr "start"; "type" := VStr "default";
            "position" := VRef 0 ]};
    CObj {[ "x" := VNum 400; "y" := VNum 200 ]};
    CObj {[ "id" := VStr "process"; "type" := VStr "default";
            "position" := VRef 2 ]};
    CObj {[ "id" := VStr "e1"; "source" := VStr "start";
            "target" := VStr "process" ]};
    CArr [VRef 1; VRef 3];
    CArr [VRef 4];
    CObj {[ "nodes" := VRef 5; "edges" := VRef 6 ]};
    CObj {[ "nodes" := VRef 5 ]} ].

Definition demo_state : value := VRef 7.
Definition demo_no_edges : value := VRef 8.
Definition demo_world : world := World demo_heap initial_refs [].

Definition demo_seeded : world := (initialize demo_state demo_world).2.
Definition demo_pushed : world := (addState demo_state demo_world).2.
Definition demo_undone : world :=
  (undo (addState demo_state demo_seeded).2).2.
Definition demo_middle : world :=
  (undo (addState demo_state (addState demo_state demo_seeded).2).2).2.
Definition demo_dragging : world := (startTransaction demo_seeded).2.

(** ** Vocabulary of the statements *)

(** The reference cells after [addState] has pushed entry [s]. *)
Definition after_push (r : refs) (s : loc) : refs :=
  Refs (pushed r s) (Z.of_nat (length (pushed r s)) - 1) (isTransacting r).

(** The world after the guard of [addState] has rejected [st]: one more
    line on the console, nothing else. *)
Definition logged (st : value) (w : world) : world :=
  World (heap w) (mgr w) (console w ++ [[VStr "Invalid state:"; st]]).

(** Property [k] of [st] reads as [undefined] or [null]. *)
Definition lacks (h : list cell) (st : value) (k : string) : Prop :=
  get_prop h st k = Ok VUndef ∨ get_prop h st k = Ok VNull.


(** The invariant of the reference cells. *)
Definition refs_ok (r : refs) : Prop :=
  (history r = [] ∧ currentIndex r = (-1)%Z) ∨
  ((0 ≤ currentIndex r < Z.of_nat (length (history r)))%Z ∧
   length (history r) ≤ 50).

(** Computations that leave the reference cells and the console alone and
    only ever extend the store. *)
Definition heap_only {A} (m : M A) : Prop :=
  ∀ w, mgr (m w).2 = mgr w ∧ console (m w).2 = console w
       ∧ heap w `prefix_of` heap (m w).2.

(** The object [{ id: i, active: i === currentIndex, state: s }]. *)
Definition item_cell (i : nat) (idx : Z) (s : loc) : cell :=
  CObj {[ "id" := VNum (Z.of_nat i);
          "active" := VBool (Z.of_nat i =? idx)%Z;
          "state" := VRef s ]}.

(** [item] is the timeline item of entry [e] at position [i]: a new object
    in [h'] whose [state] is a snapshot with the content entry [e] has in
    [h0], made only of cells that [h0] does not have. *)
Definition timeline_item_ok (h0 h' : list cell) (idx : Z) (i : nat) (e : loc)
  (item : value) : Prop :=
  ∃ l s,
    item = VRef l ∧ length h0 ≤ l ∧
    h' !! l = Some (item_cell i idx s) ∧
    snapshot_of h' (VRef s) = snapshot_of h0 (VRef e) ∧
    Forall (λ l', length h0 ≤ l') (snapshot_locs h' (VRef s)).

(** ** Drivers and the toolbar *)

#[global] Instance exn_eq_dec : EqDecision exn.
Proof. solve_decision. Defined.

#[global] Instance outcome_eq_dec {A} `{EqDecision A} : EqDecision (outcome A).
Proof. solve_decision. Defined.

(** The same call made [n] times in a row. *)
Fixpoint times {A} (n : nat) (m : M A) : M unit :=
  match n with
  | 0 => mret tt
  | S k => m;; times k m
  end.

(** The world with [currentIndex] moved to [i]. *)
Definition at_index (i : Z) (w : world) : world :=
  set_mgr (Refs (history (mgr w)) i (isTransacting (mgr w))) w.

(** [disabled={history.getCurrentIndex() === 0}] of the Undo button
    (line 255). *)
Definition undoDisabled : M bool :=
  i ← getCurrentIndex;
  mret (bool_decide (i = VNum 0)).

(** [disabled={history.getCurrentIndex() === history.getHistoryLength() - 1}]
    of the Redo button (line 269); [getHistoryLength] returns a number. *)
Definition redoDisabled : M bool :=
  i ← getCurrentIndex;
  n ← getHistoryLength;
  mret (match n with
        | VNum n => bool_decide (i = VNum (n - 1))
        | _ => false
        end).

(** The outcome is a reference to an object (not [null], not [undefined],
    not an exception). *)
Definition returns_entry (o : outcome value) : bool :=
  match o with Ok (VRef _) => true | _ => false end.

(** [history.getCurrentIndex() > 0], which picks the colour and the cursor
    of the Undo button (lines 258 and 262); [getCurrentIndex] returns a
    number. *)
Definition undoActive : M bool :=
  i ← getCurrentIndex;
  mret (match i with VNum i => (0 <? i)%Z | _ => false end).

(** [history.getCurrentIndex() < history.getHistoryLength() - 1], which
    picks the colour and the cursor of the Redo button (lines 272 and 276). *)
Definition redoActive : M bool :=
  i ← getCurrentIndex;
  n ← getHistoryLength;
  mret (match i, n with
        | VNum i, VNum n => (i <? n - 1)%Z
        | _, _ => false
        end).

(** ** The component [FlowComponent] (lines 154-310)

    The state of the component between two events: the values [nodes] and
    [edges] of the last render (React renders between events, and every
    handler that reads them lists them as dependencies), the reference cell
    [isDragging], the lines written by [console.log], and the world of the
    history manager.  [setNodes] and [setEdges] replace the value the next
    render will show; a handler keeps reading the values it started with. *)
Record component := Component {
  nodes : value;
  edges : value;
  isDragging : bool;
  console_log : list (list value);
  store : world
}.

Definition E (A : Type) : Type := component → outcome A * component.

#[global] Instance E_ret : MRet E := λ A a c, (Ok a, c).
#[global] Instance E_bind : MBind E := λ A B k m c,
  match m c with
  | (Ok a, c') => k a c'
  | (Throw e, c') => (Throw e, c')
  end.

Definition set_store (w : world) (c : component) : component :=
  Component (nodes c) (edges c) (isDragging c) (console_log c) w.

(** A call of the history manager, or a read or allocation in the store. *)
Definition in_store {A} (m : M A) : E A :=
  λ c, let (o, w) := m (store c) in (o, set_store w c).

(** The component as the running handler was created from it. *)
Definition rendered : E component := λ c, (Ok c, c).

Definition setNodes (v : value) : E unit :=
  λ c, (Ok tt, Component v (edges c) (isDragging c) (console_log c) (store c)).
Definition setEdges (v : value) : E unit :=
  λ c, (Ok tt, Component (nodes c) v (isDragging c) (console_log c) (store c)).
Definition set_isDragging (b : bool) : E unit :=
  λ c, (Ok tt, Component (nodes c) (edges c) b (console_log c) (store c)).
Definition console_dot_log (args : list value) : E unit :=
  λ c, (Ok tt, Component (nodes c) (edges c) (isDragging c)
                 (console_log c ++ [args]) (store c)).

(** The callbacks of [Array.prototype.some], up to the first hit. *)
Fixpoint some_elems (f : value → M bool) (xs : list value) : M bool :=
  match xs with
  | [] => mret false
  | x :: r => b ← f x; if (b : bool) then mret true else some_elems f r
  end.

(** [arr.some(f)] *)
Definition array_some (f : value → M bool) (arr : value) : M bool :=
  xs ← lift (λ h,
    match arr with
    | VRef l =>
        match h !! l with
        | Some (CArr xs) => Ok xs
        | Some (CObj _) => Throw TypeError
        | None => Throw Stuck
        end
    | _ => Throw TypeError
    end);
  some_elems f xs.

(** [c => c.type === 'position' && c.dragging], as [some] tests it. *)
Definition position_dragging (c : value) : M bool :=
  t ← prop c "type";
  if bool_decide (t = VStr "position")
  then d ← prop c "dragging"; mret (truthy d)
  else mret false.

(** The object literal [{ nodes, edges }]. *)
Definition state_literal (n e : value) : M value :=
  l ← alloc (CObj {[ "nodes" := n; "edges" := e ]});
  mret (VRef l).

(** ['undo' | 'redo'] *)
Inductive action := ActUndo | ActRedo.

(** [action === 'undo' ? history.undo() : history.redo()] *)
Definition history_op (a : action) : M value :=
  match a with ActUndo => undo | ActRedo => redo end.

Section FlowComponent.

(** The change handlers that [useNodesState] and [useEdgesState] return
    belong to the library, and so do the module constants they start from. *)
Variable onNodesChange onEdgesChange : value → E unit.
Variable initialNodes initialEdges : value.

(** The effect run on mount (lines 163-167). *)
Definition onMount : E unit :=
  c ← rendered;
  s ← in_store (state_literal (nodes c) (edges c));
  in_store (initialize s);;
  setNodes initialNodes;;
  setEdges initialEdges.

Definition handleNodesChange (changes : value) : E unit :=
  console_dot_log [changes];;
  dragging ← in_store (array_some position_dragging changes);
  c ← rendered;
  (if dragging && negb (isDragging c)
   then in_store startTransaction;; set_isDragging true
   else mret tt);;
  onNodesChange changes.

Definition handleDragEnd : E unit :=
  c ← rendered;
  if isDragging c then
    s ← in_store (state_literal (nodes c) (edges c));
    in_store (endTransaction s);;
    set_isDragging false
  else mret tt.

Definition handleEdgesChange (changes : value) : E unit :=
  c ← rendered;
  onEdgesChange changes;;
  s ← in_store (state_literal (nodes c) (edges c));
  in_store (addState s);;
  mret tt.

End FlowComponent.

Definition handleHistory (a : action) : E unit :=
  state ← in_store (history_op a);
  if truthy state then
    ns ← in_store (prop state "nodes");
    na ← in_store (array_map (λ n _, spread_object n) ns);
    setNodes na;;
    es ← in_store (prop state "edges");
    ea ← in_store (array_spread es);
    setEdges ea
  else mret tt.

(** The [onClick] of a timeline dot (lines 289-295). *)
Definition timelineClick (item : value) : E unit :=
  st ← in_store (prop item "state");
  timelineNodes ← in_store (prop st "nodes");
  timelineEdges ← in_store (prop st "edges");
  if truthy timelineNodes && truthy timelineEdges then
    na ← in_store (array_map (λ n _, spread_object n) timelineNodes);
    setNodes na;;
    ea ← in_store (array_spread timelineEdges);
    setEdges ea
  else mret tt.

(** The component after a list of events, each handled to its end whether
    it returns or throws. *)
Definition after (hs : list (E unit)) (c : component) : component :=
  foldl (λ c h, (h c).2) c hs.

(** The content of the diagram [{ nodes: n, edges: e }], one level into
    each node, as [snapshot_of] reads a stored state. *)
Definition diagram_of (h : list cell) (n e : value)
  : option (list (gmap string value) * list value) :=
  ns ← array_at h n;
  es ← array_at h e;
  ps ← mapM (own_props h) ns;
  Some (ps, es).

(** Handlers that leave the reference cells of the history manager and
    [isDragging] as they were. *)
Definition keeps_refs {A} (m : E A) : Prop :=
  ∀ c, mgr (store (m c).2) = mgr (store c) ∧ isDragging (m c).2 = isDragging c.

(** The cells of the copy handed to the renderer after [undo], [redo] or a
    click on the timeline: node records, node array, edge array. *)
Definition shown_cells (base : nat) (ps : list (gmap string value))
  (es : list value) : list cell :=
  (CObj <$> ps) ++ [ CArr (VRef <$> seq base (length ps)); CArr es ].

(** What [setNodes(x.nodes.map(n => ({ ...n }))); setEdges([...x.edges])]
    leaves, for a diagram [x] with node properties [ps] and edges [es]. *)
Definition showing (ps : list (gmap string value)) (es : list value)
  (c : component) : component :=
  Component (VRef (length (heap (store c)) + length ps))
            (VRef (length (heap (store c)) + length ps + 1))
            (isDragging c) (console_log c)
            (set_heap (heap (store c)
                       ++ shown_cells (length (heap (store c))) ps es) (store c)).

(** ** More concrete worlds *)

Definition demo_three : world :=
  (addState demo_state (addState demo_state demo_seeded).2).2.

(** A state whose [nodes] and [edges] are numbers. *)
Definition demo_numbers : world :=
  World [CObj {[ "nodes" := VNum 5; "edges" := VNum 7 ]}] initial_refs [].

(** The demo diagram with the change lists of a drag: a position change
    with [dragging] set (array at 10), one with it clear (array at 12). *)
Definition drag_heap : list cell :=
  demo_heap ++
  [ CObj {[ "id" := VStr "start"; "type" := VStr "position";
            "dragging" := VBool true ]};
    CArr [VRef 9];
    CObj {[ "id" := VStr "start"; "type" := VStr "position";
            "dragging" := VBool false ]};
    CArr [VRef 11] ].

Definition demo_component : component :=
  Component (VRef 5) (VRef 6) false []
    (initialize demo_state (World drag_heap initial_refs [])).2.

Definition demo_component_dragging : component :=
  Component (VRef 5) (VRef 6) true []
    (startTransaction (store demo_component)).2.

(** A stand-in for the library's change handlers. *)
Definition ignore_changes (changes : value) : E unit := mret tt.

Definition demo_component_two : component :=
  set_store (addState demo_state (store demo_component)).2 demo_component.

(** The component with a timeline computed; its only item is at 19. *)
Definition demo_component_timeline : component :=
  Component (VRef 5) (VRef 6) false [] (getTimeline demo_pushed).2.

(** * Proofs *)

(** ** The model on small inputs *)

Example js_slice_examples :
  js_slice [1; 2; 3; 4; 5] 0 (Some 3%Z) = [1; 2; 3] ∧
  js_slice [1; 2; 3; 4; 5] 0 (Some 0%Z) = [] ∧
  js_slice [1; 2; 3; 4; 5] (-2) None = [4; 5] ∧
  js_slice [1; 2; 3] (-50) None = [1; 2; 3].
Proof. vm_compute. done. Qed.

(** [initialize(s)], [addState(s)]: [undo] returns entry 0, [redo] entry 1. *)
Example scenario_undo_redo :
  mgr (addState demo_state demo_seeded).2 = Refs [13; 18] 1 false ∧
  undo (addState demo_state demo_seeded).2 = (Ok (VRef 13), demo_undone) ∧
  (redo demo_undone).1 = Ok (VRef 18) ∧
  mgr (redo demo_undone).2 = Refs [13; 18] 1 false.
Proof. vm_compute. done. Qed.

(** Three entries, two [undo]s, one [addState]: entry 0 and the new one. *)
Example scenario_truncate :
  mgr demo_middle = Refs [13; 18; 23] 1 false ∧
  mgr (addState demo_state (undo demo_middle).2).2 = Refs [13; 28] 1 false.
Proof. vm_compute. done. Qed.

(** The guard of [addState] lets truthy non-arrays through to [map]. *)
Example addState_throws_on_non_array :
  (addState (VRef 0) (set_heap [CObj {[ "nodes" := VNum 5; "edges" := VNum 7 ]}]
                               demo_world)).1 = Throw TypeError.
Proof. vm_compute. done. Qed.

(** ** Slices *)

Lemma js_slice_tail {A} (xs : list A) :
  js_slice xs (-50) None = drop (length xs - 50) xs.
Proof.
  unfold js_slice, rel_index. simpl.
  replace (Z.to_nat (Z.max (Z.of_nat (length xs) + -50) 0))
    with (length xs - 50) by lia.
  apply take_ge. rewrite length_drop. lia.
Qed.

Lemma js_slice_head {A} (xs : list A) (i : Z) :
  (-1 ≤ i)%Z → js_slice xs 0 (Some (i + 1)%Z) = take (Z.to_nat (i + 1)) xs.
Proof.
  intros Hi. unfold js_slice, rel_index.
  destruct (Z.ltb_spec (i + 1) 0); [lia|].
  destruct (Z.ltb_spec 0 0); [lia|].
  replace (Z.min 0 (Z.of_nat (length xs))) with 0%Z by lia.
  rewrite Z.sub_0_r. simpl. rewrite drop_0.
  destruct (Z.min_spec (i + 1) (Z.of_nat (length xs))) as [[? ->]|[? ->]]; [done|].
  rewrite Nat2Z.id. rewrite !take_ge; auto; lia.
Qed.

Lemma js_slice_head_all {A} (xs : list A) :
  js_slice xs 0 (Some (Z.of_nat (length xs) - 1 + 1)%Z) = xs.
Proof. rewrite js_slice_head by lia. apply take_ge. lia. Qed.

Lemma js_slice_tail_app {A} (xs ys : list A) :
  js_slice (js_slice xs (-50) None ++ ys) (-50) None =
  js_slice (xs ++ ys) (-50) None.
Proof.
  rewrite !js_slice_tail. rewrite !length_app, length_drop.
  rewrite !drop_app, drop_drop, length_drop.
  f_equal; f_equal; lia.
Qed.

Lemma pushed_snoc r e :
  pushed r e = drop (S (length (kept r)) - 50) (kept r) ++ [e].
Proof.
  unfold pushed. rewrite js_slice_tail, length_app. cbn [length].
  rewrite drop_app_le by lia. f_equal. f_equal. lia.
Qed.

Lemma pushed_last r e : last (pushed r e) = Some e.
Proof. rewrite pushed_snoc. apply last_snoc. Qed.

Lemma pushed_bounds r e : 1 ≤ length (pushed r e) ≤ 50.
Proof.
  rewrite pushed_snoc, length_app, length_drop. cbn [length]. lia.
Qed.

Lemma js_index_last (xs : list nat) e :
  last xs = Some e → js_index xs (Z.of_nat (length xs) - 1) = VRef e.
Proof.
  intros H. unfold js_index.
  destruct xs as [|x xs]; [done|].
  rewrite last_lookup in H. cbn [length] in *.
  destruct (Z.ltb_spec (Z.of_nat (S (length xs)) - 1) 0); [lia|].
  replace (Z.to_nat (Z.of_nat (S (length xs)) - 1))
    with (Nat.pred (S (length xs))) by lia.
  by rewrite H.
Qed.

(** ** Running the monad *)

Lemma bind_run {A B} (m : M A) (k : A → M B) w :
  (m ≫= k) w =
  match m w with (Ok a, w') => k a w' | (Throw e, w') => (Throw e, w') end.
Proof. reflexivity. Qed.

Lemma bind_ok {A B} (m : M A) (k : A → M B) w a w' :
  m w = (Ok a, w') → (m ≫= k) w = k a w'.
Proof. intros H. by rewrite bind_run, H. Qed.

(** ** Frames: what only extends the store *)

Lemma heap_only_ret {A} (a : A) : heap_only (mret a).
Proof. intros w. by cbn. Qed.

Lemma heap_only_bind {A B} (m : M A) (k : A → M B) :
  heap_only m → (∀ a, heap_only (k a)) → heap_only (m ≫= k).
Proof.
  intros Hm Hk w. rewrite bind_run.
  destruct (Hm w) as (H1 & H2 & H3).
  destruct (m w) as [[a|e] w1]; simpl in *; [|done].
  destruct (Hk a w1) as (H4 & H5 & H6).
  split_and!; [congruence|congruence|by etrans].
Qed.

Lemma heap_only_lift {A} (f : list cell → outcome A) : heap_only (lift f).
Proof. intros w. by cbn. Qed.

Lemma heap_only_get_refs : heap_only get_refs.
Proof. intros w. by cbn. Qed.

Lemma heap_only_alloc c : heap_only (alloc c).
Proof. intros w. cbn. split_and!; [done..|]. by apply prefix_app_r. Qed.

Lemma heap_only_map_elems f xs :
  (∀ x i, heap_only (f x i)) → ∀ i, heap_only (map_elems f i xs).
Proof.
  intros Hf. induction xs as [|x xs IH]; intros i; cbn [map_elems].
  - apply heap_only_ret.
  - apply heap_only_bind; [apply Hf|]. intros y.
    apply heap_only_bind; [apply IH|]. intros ys. apply heap_only_ret.
Qed.

Create HintDb frame.
#[export] Hint Resolve heap_only_ret heap_only_lift heap_only_get_refs
  heap_only_alloc : frame.

Ltac frame :=
  repeat first
    [ apply heap_only_bind; [|intros ?]
    | apply heap_only_map_elems; intros ? ?
    | solve [auto with frame] ].

Lemma heap_only_snapshot_literal s : heap_only (snapshot_literal s).
Proof. unfold snapshot_literal, array_map, array_spread, prop. frame. Qed.

Lemma heap_only_getTimeline : heap_only getTimeline.
Proof. unfold getTimeline. frame. Qed.

(** ** Snapshots under store extension *)

Section store_extension.
Context (h k : list cell).

Lemma own_props_app v p :
  own_props h v = Some p → own_props (h ++ k) v = Some p.
Proof.
  destruct v; simpl; auto.
  destruct (h !! l) as [c|] eqn:E; [|done].
  by rewrite (lookup_app_l_Some _ _ _ _ E).
Qed.

Lemma mapM_own_props_app ns ps :
  mapM (own_props h) ns = Some ps → mapM (own_props (h ++ k)) ns = Some ps.
Proof.
  rewrite !mapM_Some. intros H. eapply Forall2_impl; [exact H|].
  intros. by apply own_props_app.
Qed.

Lemma array_at_inv v xs :
  array_at h v = Some xs → ∃ a, v = VRef a ∧ h !! a = Some (CArr xs).
Proof.
  destruct v; simpl; try done.
  destruct (h !! l) as [[|]|] eqn:E; try done.
  intros [= <-]. eauto.
Qed.

Lemma snapshot_of_inv s ps es :
  snapshot_of h s = Some (ps, es) →
  ∃ l m na ns ea,
    s = VRef l ∧ h !! l = Some (CObj m) ∧
    m !! "nodes" = Some (VRef na) ∧ h !! na = Some (CArr ns) ∧
    m !! "edges" = Some (VRef ea) ∧ h !! ea = Some (CArr es) ∧
    mapM (own_props h) ns = Some ps.
Proof.
  unfold snapshot_of. intros H.
  destruct (object_at h s) as [m|] eqn:Hm; [|done]. simpl in H.
  destruct (array_at h (default VUndef (m !! "nodes"))) as [ns|] eqn:Hn; [|done].
  simpl in H.
  destruct (array_at h (default VUndef (m !! "edges"))) as [es'|] eqn:He; [|done].
  simpl in H.
  destruct (mapM (own_props h) ns) as [ps'|] eqn:Hp; [|done].
  simpl in H. injection H as <- <-.
  destruct s; try done. simpl in Hm.
  destruct (h !! l) as [[m'|]|] eqn:Hl; try done. injection Hm as ->.
  apply array_at_inv in Hn as (na & Hna & Hns).
  apply array_at_inv in He as (ea & Hea & Hes).
  assert (Hf : ∀ f a, default VUndef (m !! f) = VRef a → m !! f = Some (VRef a)).
  { intros f a. destruct (m !! f); simpl; congruence. }
  apply Hf in Hna, Hea.
  exists l, m, na, ns, ea. done.
Qed.

Lemma snapshot_of_intro l m na ns ea es ps :
  h !! l = Some (CObj m) →
  m !! "nodes" = Some (VRef na) → h !! na = Some (CArr ns) →
  m !! "edges" = Some (VRef ea) → h !! ea = Some (CArr es) →
  mapM (own_props h) ns = Some ps →
  snapshot_of h (VRef l) = Some (ps, es).
Proof.
  intros Hl Hn Hna He Hea Hp. unfold snapshot_of. simpl.
  rewrite Hl. simpl. rewrite Hn. simpl. rewrite Hna. simpl.
  rewrite He. simpl. rewrite Hea. simpl. rewrite Hp. done.
Qed.

End store_extension.

Lemma snapshot_of_app h k s c :
  snapshot_of h s = Some c → snapshot_of (h ++ k) s = Some c.
Proof.
  destruct c as [ps es]. intros H.
  apply snapshot_of_inv in H
    as (l & m & na & ns & ea & -> & Hl & Hn & Hna & He & Hea & Hp).
  eapply snapshot_of_intro; eauto using lookup_app_l_Some, mapM_own_props_app.
Qed.

Lemma snapshot_locs_app h k s c :
  snapshot_of h s = Some c → snapshot_locs (h ++ k) s = snapshot_locs h s.
Proof.
  destruct c as [ps es]. intros H.
  apply snapshot_of_inv in H
    as (l & m & na & ns & ea & -> & Hl & Hn & Hna & He & Hea & Hp).
  unfold snapshot_locs, object_at. cbn [ref_loc].
  rewrite (lookup_app_l_Some _ _ _ _ Hl), Hl, Hn. unfold array_at, id.
  cbn [default].
  by rewrite (lookup_app_l_Some _ _ _ _ Hna), Hna.
Qed.

(** ** The cells a copy allocates *)

Lemma copy_cells_length base ps es :
  length (copy_cells base ps es) = length ps + 3.
Proof. unfold copy_cells. rewrite length_app, length_fmap. simpl. lia. Qed.

Lemma copy_cells_lookup_node h ps es i p :
  ps !! i = Some p →
  (h ++ copy_cells (length h) ps es) !! (length h + i) = Some (CObj p).
Proof.
  intros H. rewrite lookup_app_r by lia.
  replace (length h + i - length h) with i by lia.
  unfold copy_cells. apply lookup_app_l_Some.
  by rewrite list_lookup_fmap, H.
Qed.

Lemma copy_cells_lookup_tail h ps es j c :
  [ CArr (VRef <$> seq (length h) (length ps)); CArr es;
    CObj {[ "nodes" := VRef (length h + length ps);
            "edges" := VRef (length h + length ps + 1) ]} ] !! j = Some c →
  (h ++ copy_cells (length h) ps es) !! (length h + length ps + j) = Some c.
Proof.
  intros H. rewrite lookup_app_r by lia. unfold copy_cells.
  rewrite lookup_app_r by (rewrite length_fmap; lia).
  rewrite length_fmap.
  by replace (length h + length ps + j - length h - length ps) with j by lia.
Qed.

Lemma copy_cells_nodes h ps es :
  (h ++ copy_cells (length h) ps es) !! (length h + length ps) =
    Some (CArr (VRef <$> seq (length h) (length ps))).
Proof.
  pose proof (copy_cells_lookup_tail h ps es 0 _ eq_refl) as H.
  by rewrite Nat.add_0_r in H.
Qed.

Lemma copy_cells_edges h ps es :
  (h ++ copy_cells (length h) ps es) !! (length h + length ps + 1)
  = Some (CArr es).
Proof. by apply copy_cells_lookup_tail. Qed.

Lemma copy_cells_object h ps es :
  (h ++ copy_cells (length h) ps es) !! snapshot_loc (length h) ps =
    Some (CObj {[ "nodes" := VRef (length h + length ps);
                  "edges" := VRef (length h + length ps + 1) ]}).
Proof. by apply copy_cells_lookup_tail. Qed.

Lemma literal_nodes (a b : value) :
  ({[ "nodes" := a; "edges" := b ]} : gmap string value) !! "nodes" = Some a.
Proof. apply lookup_insert_eq. Qed.

Lemma literal_edges (a b : value) :
  ({[ "nodes" := a; "edges" := b ]} : gmap string value) !! "edges" = Some b.
Proof. rewrite lookup_insert_ne by done. apply lookup_singleton_eq. Qed.

Lemma mapM_own_props_copy h ps es :
  mapM (own_props (h ++ copy_cells (length h) ps es))
       (VRef <$> seq (length h) (length ps)) = Some ps.
Proof.
  apply mapM_Some. apply Forall2_same_length_lookup_2.
  - by rewrite length_fmap, length_seq.
  - intros i v p Hv Hp.
    apply list_lookup_fmap_Some_1 in Hv as (l & -> & Hl).
    apply lookup_seq in Hl as [-> _]. simpl.
    by rewrite (copy_cells_lookup_node _ _ _ _ _ Hp).
Qed.

Lemma snapshot_of_copy h ps es :
  snapshot_of (h ++ copy_cells (length h) ps es)
              (VRef (snapshot_loc (length h) ps)) = Some (ps, es).
Proof.
  eapply snapshot_of_intro;
    eauto using copy_cells_object, copy_cells_nodes, copy_cells_edges,
      literal_nodes, literal_edges, mapM_own_props_copy.
Qed.

Lemma omap_ref_loc (ls : list nat) : omap ref_loc (VRef <$> ls) = ls.
Proof. induction ls as [|x l IH]; [done|]. cbn. f_equal. exact IH. Qed.

Lemma snapshot_locs_copy h ps es :
  snapshot_locs (h ++ copy_cells (length h) ps es)
                (VRef (snapshot_loc (length h) ps)) =
  snapshot_loc (length h) ps :: (length h + length ps)
    :: (length h + length ps + 1) :: seq (length h) (length ps).
Proof.
  unfold snapshot_locs, object_at. cbn [ref_loc].
  rewrite copy_cells_object, literal_nodes, literal_edges.
  cbn [default omap list_omap ref_loc app]. unfold id, array_at.
  rewrite copy_cells_nodes. cbn [default]. by rewrite omap_ref_loc.
Qed.

Lemma snapshot_loc_fresh base ps : base ≤ snapshot_loc base ps.
Proof. unfold snapshot_loc. lia. Qed.

(** ** What the object literal computes *)

Lemma spread_object_spec n p w :
  own_props (heap w) n = Some p →
  spread_object n w =
    (Ok (VRef (length (heap w))), set_heap (heap w ++ [CObj p]) w).
Proof.
  intros H. unfold spread_object. rewrite bind_run. unfold lift.
  by rewrite H.
Qed.

Lemma map_spread_spec ns : ∀ ps w i,
  mapM (own_props (heap w)) ns = Some ps →
  map_elems (λ n _, spread_object n) i ns w =
    (Ok (VRef <$> seq (length (heap w)) (length ps)),
     set_heap (heap w ++ (CObj <$> ps)) w).
Proof.
  induction ns as [|n ns IH]; intros ps w i H.
  - simpl in H. injection H as <-. destruct w. cbn. by rewrite app_nil_r.
  - apply mapM_Some in H. inversion H as [|? p ? ps' Hp Hps]; subst.
    cbn [map_elems].
    rewrite (bind_ok _ _ _ _ _ (spread_object_spec _ _ _ Hp)).
    erewrite bind_ok; last first.
    { apply (IH ps'). apply mapM_Some. simpl.
      eapply Forall2_impl; [exact Hps|]. intros. by apply own_props_app. }
    unfold mret, M_ret, set_heap. simpl.
    rewrite length_app. simpl. rewrite Nat.add_1_r.
    by rewrite <- app_assoc.
Qed.

Lemma snapshot_literal_spec s ps es w :
  snapshot_of (heap w) s = Some (ps, es) →
  snapshot_literal s w =
    (Ok (snapshot_loc (length (heap w)) ps),
     set_heap (heap w ++ copy_cells (length (heap w)) ps es) w).
Proof.
  intros H.
  apply snapshot_of_inv in H
    as (l & m & na & ns & ea & -> & Hl & Hn & Hna & He & Hea & Hp).
  unfold snapshot_literal.
  erewrite bind_ok; last first.
  { unfold prop, lift. simpl. by rewrite Hl, Hn. }
  simpl.
  erewrite bind_ok; last first.
  { unfold array_map. erewrite bind_ok; last first.
    { unfold lift. by rewrite Hna. }
    erewrite bind_ok; last by apply map_spread_spec.
    unfold alloc, mbind, mret, M_bind, M_ret. simpl. reflexivity. }
  erewrite bind_ok; last first.
  { unfold prop, lift. simpl. rewrite <- app_assoc.
    rewrite (lookup_app_l_Some _ _ _ _ Hl). by rewrite He. }
  erewrite bind_ok; last first.
  { unfold array_spread. erewrite bind_ok; last first.
    { unfold lift. simpl. by rewrite (lookup_app_l_Some _ _ _ _ Hea). }
    unfold alloc, mbind, mret, M_bind, M_ret. simpl. reflexivity. }
  unfold alloc, set_heap, snapshot_loc, copy_cells. simpl.
  rewrite !length_app, !length_fmap. simpl.
  f_equal; [f_equal; lia|].
  rewrite <- !app_assoc. simpl.
  by rewrite !Nat.add_assoc.
Qed.

(** ** The entry points, unfolded *)

Lemma addState_unfold st w :
  addState st w =
  match get_prop (heap w) st "nodes" with
  | Throw e => (Throw e, w)
  | Ok vn =>
      if truthy vn then
        match get_prop (heap w) st "edges" with
        | Throw e => (Throw e, w)
        | Ok ve =>
            if truthy ve then
              match snapshot_literal st w with
              | (Ok s, w1) => (Ok VUndef, set_mgr (after_push (mgr w) s) w1)
              | (Throw e, w1) => (Throw e, w1)
              end
            else (Ok VUndef, logged st w)
        end
      else (Ok VUndef, logged st w)
  end.
Proof.
  unfold addState. rewrite bind_run. unfold prop at 1, lift at 1.
  destruct (get_prop (heap w) st "nodes") as [vn|e]; [|done].
  rewrite bind_run.
  destruct (truthy vn); [|done].
  rewrite bind_run. unfold prop at 1, lift at 1.
  destruct (get_prop (heap w) st "edges") as [ve|e]; [|done].
  cbn [mret M_ret]. destruct (truthy ve); cbn [negb]; [|done].
  rewrite bind_run. cbn [get_refs]. rewrite bind_run.
  destruct (snapshot_literal st w) as [[s|e] w1]; [|done]. by destruct w1.
Qed.

Lemma addState_cases st w :
  (∃ e, addState st w = (Throw e, w)) ∨
  addState st w = (Ok VUndef, logged st w) ∨
  (∃ e w1, snapshot_literal st w = (Throw e, w1) ∧
           addState st w = (Throw e, w1)) ∨
  (∃ s w1, snapshot_literal st w = (Ok s, w1) ∧
           addState st w = (Ok VUndef, set_mgr (after_push (mgr w) s) w1)).
Proof.
  rewrite addState_unfold.
  destruct (get_prop (heap w) st "nodes") as [vn|e]; [|left; eauto].
  destruct (truthy vn); [|right; left; reflexivity].
  destruct (get_prop (heap w) st "edges") as [ve|e]; [|left; eauto].
  destruct (truthy ve); [|right; left; reflexivity].
  right; right.
  destruct (snapshot_literal st w) as [[s|e] w1]; [right|left]; eauto.
Qed.

Lemma addState_falsy st w vn :
  get_prop (heap w) st "nodes" = Ok vn →
  (truthy vn = false ∨
   ∃ ve, get_prop (heap w) st "edges" = Ok ve ∧ truthy ve = false) →
  addState st w = (Ok VUndef, logged st w).
Proof.
  intros Hn H. rewrite addState_unfold, Hn.
  destruct (truthy vn) eqn:Tn; [|done].
  destruct H as [?|(ve & He & Te)]; [done|].
  by rewrite He, Te.
Qed.

Lemma addState_valid st ps es w :
  snapshot_of (heap w) st = Some (ps, es) →
  addState st w =
    (Ok VUndef,
     World (heap w ++ copy_cells (length (heap w)) ps es)
           (after_push (mgr w) (snapshot_loc (length (heap w)) ps))
           (console w)).
Proof.
  intros H. pose proof (snapshot_literal_spec _ _ _ _ H) as Hs.
  apply snapshot_of_inv in H
    as (l & m & na & ns & ea & -> & Hl & Hn & Hna & He & Hea & Hp).
  rewrite addState_unfold. simpl. rewrite Hl, Hn, He. simpl.
  by rewrite Hs.
Qed.

Lemma undo_unfold w :
  undo w =
  if (0 <? currentIndex (mgr w))%Z then
    (Ok (js_index (history (mgr w)) (currentIndex (mgr w) - 1)),
     set_mgr (Refs (history (mgr w)) (currentIndex (mgr w) - 1)
                   (isTransacting (mgr w))) w)
  else (Ok VNull, w).
Proof.
  unfold undo. rewrite bind_run. cbn [get_refs]. by destruct (_ <? _)%Z.
Qed.

Lemma redo_unfold w :
  redo w =
  if (currentIndex (mgr w) <? Z.of_nat (length (history (mgr w))) - 1)%Z then
    (Ok (js_index (history (mgr w)) (currentIndex (mgr w) + 1)),
     set_mgr (Refs (history (mgr w)) (currentIndex (mgr w) + 1)
                   (isTransacting (mgr w))) w)
  else (Ok VNull, w).
Proof.
  unfold redo. rewrite bind_run. cbn [get_refs]. by destruct (_ <? _)%Z.
Qed.

Lemma initialize_unfold s w :
  initialize s w =
  match snapshot_literal s w with
  | (Ok e, w1) =>
      (Ok VUndef, set_mgr (Refs [e] 0 (isTransacting (mgr w))) w1)
  | (Throw e, w1) => (Throw e, w1)
  end.
Proof.
  unfold initialize. rewrite bind_run.
  destruct (heap_only_snapshot_literal s w) as (Hm & _).
  destruct (snapshot_literal s w) as [[e|e] w1]; [|done].
  simpl in Hm. cbn. unfold set_mgr. simpl. by rewrite <- Hm.
Qed.

Lemma endTransaction_unfold st w :
  endTransaction st w =
  addState st (set_mgr (Refs (history (mgr w)) (currentIndex (mgr w)) false) w).
Proof. reflexivity. Qed.

Lemma getCurrentState_after_push w s :
  getCurrentState (set_mgr (after_push (mgr w) s) w) =
  (Ok (VRef s), set_mgr (after_push (mgr w) s) w).
Proof.
  unfold getCurrentState. rewrite bind_run. cbn.
  by rewrite (js_index_last _ _ (pushed_last _ _)).
Qed.

(** ** The invariant of the reference cells *)

Lemma refs_ok_after_push r e : refs_ok (after_push r e).
Proof.
  right. unfold after_push. simpl. pose proof (pushed_bounds r e). lia.
Qed.

Lemma addState_refs_ok s w : refs_ok (mgr w) → refs_ok (mgr (addState s w).2).
Proof.
  intros H.
  destruct (addState_cases s w)
    as [(e & ->)|[->|[(e & w1 & Hs & ->)|(e & w1 & Hs & ->)]]];
    simpl; try done.
  - destruct (heap_only_snapshot_literal s w) as (Hm & _).
    rewrite Hs in Hm. simpl in Hm. by rewrite Hm.
  - apply refs_ok_after_push.
Qed.

Lemma exec_refs_ok c w : refs_ok (mgr w) → refs_ok (mgr (exec c w).2).
Proof.
  intros H. destruct c; cbn [exec].
  - rewrite initialize_unfold.
    destruct (heap_only_snapshot_literal s w) as (Hm & _).
    destruct (snapshot_literal s w) as [[e|e] w1]; simpl in *; [|by rewrite Hm].
    right. simpl. lia.
  - by apply addState_refs_ok.
  - rewrite undo_unfold.
    destruct (Z.ltb_spec 0 (currentIndex (mgr w))); [|done].
    simpl. destruct H as [[_ ?]|[? ?]]; [lia|]. right. simpl. lia.
  - rewrite redo_unfold.
    destruct (Z.ltb_spec (currentIndex (mgr w))
                (Z.of_nat (length (history (mgr w))) - 1)); [|done].
    simpl. destruct H as [[Hh ?]|[? ?]]; [rewrite Hh in *; simpl in *; lia|].
    right. simpl. lia.
  - exact H.
  - rewrite endTransaction_unfold. by apply addState_refs_ok.
  - exact H.
  - exact H.
  - exact H.
  - destruct (heap_only_getTimeline w) as (Hm & _). by rewrite Hm.
Qed.

Lemma reachable_refs_ok w : reachable w → refs_ok (mgr w).
Proof.
  induction 1 as [h|c w _ IH|h w _ IH].
  - by left.
  - by apply exec_refs_ok.
  - exact IH.
Qed.

(** ** A run of pushes *)

Lemma addStates_spec sts : ∀ w,
  Forall (λ st, is_Some (snapshot_of (heap w) st)) sts →
  ∃ es w',
    addStates sts w = (Ok (VRef <$> es), w') ∧
    heap w `prefix_of` heap w' ∧
    (sts ≠ [] →
       history (mgr w') = js_slice (kept (mgr w) ++ es) (-50) None ∧
       currentIndex (mgr w') = (Z.of_nat (length (history (mgr w'))) - 1)%Z) ∧
    Forall2 (λ e st, ∃ c, snapshot_of (heap w) st = Some c ∧
                          snapshot_of (heap w') (VRef e) = Some c) es sts ∧
    Forall (λ e, length (heap w) ≤ e < length (heap w')) es ∧
    NoDup es.
Proof.
  induction sts as [|st sts IH]; intros w Hv.
  - exists [], w. split_and!; try done. constructor.
  - apply Forall_cons in Hv as [[[ps es0] Hst] Hv].
    pose proof (addState_valid _ _ _ _ Hst) as Ha.
    set (e1 := snapshot_loc (length (heap w)) ps) in *.
    set (w1 := World _ _ _) in Ha.
    destruct (IH w1) as (es & w' & Hrun & Hpre & Hhist & Hcopy & Hfresh & Hnd).
    { eapply Forall_impl; [exact Hv|]. intros s [c Hc].
      exists c. by apply snapshot_of_app. }
    exists (e1 :: es), w'.
    assert (Hw1 : heap w `prefix_of` heap w1) by (by apply prefix_app_r).
    assert (He1 : length (heap w) ≤ e1 < length (heap w1)).
    { unfold w1, e1, snapshot_loc. simpl.
      rewrite length_app, copy_cells_length. lia. }
    assert (Hlen : length (heap w1) ≤ length (heap w')).
    { apply prefix_length. exact Hpre. }
    split_and!.
    + cbn [addStates]. rewrite (bind_ok _ _ _ _ _ Ha).
      erewrite bind_ok; last first.
      { exact (getCurrentState_after_push (set_heap (heap w1) w) e1). }
      erewrite bind_ok; last exact Hrun. reflexivity.
    + by etrans.
    + intros _. destruct sts as [|st' sts'].
      * simpl in Hrun. injection Hrun as Hes <-.
        destruct es; [|done]. by split.
      * destruct Hhist as [Hh Hi]; [done|]. split; [|done].
        rewrite Hh. unfold kept at 1. subst w1.
        cbn [mgr after_push history currentIndex].
        rewrite js_slice_head_all. unfold pushed.
        rewrite js_slice_tail_app. by rewrite <- app_assoc.
    + constructor.
      * exists (ps, es0). split; [done|].
        destruct Hpre as [k Hk]. rewrite Hk.
        apply snapshot_of_app. apply snapshot_of_copy.
      * apply Forall2_same_length_lookup. split; [by eapply Forall2_length|].
        intros i e s He Hs.
        destruct (Forall2_lookup_lr _ _ _ _ _ _ Hcopy He Hs) as (c & Hc1 & Hc2).
        rewrite Forall_lookup in Hv. destruct (Hv _ _ Hs) as [c' Hc'].
        exists c'. split; [done|].
        assert (snapshot_of (heap w1) s = Some c') by (by apply snapshot_of_app).
        congruence.
    + constructor; [lia|].
      eapply Forall_impl; [exact Hfresh|]. intros e He. cbn beta in He.
      apply prefix_length in Hw1. lia.
    + constructor; [|done].
      intros Hin. rewrite Forall_forall in Hfresh. apply Hfresh in Hin. lia.
Qed.

(** ** The timeline *)

Lemma timeline_item_spec e i ps es w :
  snapshot_of (heap w) (VRef e) = Some (ps, es) →
  timeline_item (VRef e) i w =
    (Ok (VRef (length (heap w) + length ps + 3)),
     set_heap ((heap w ++ copy_cells (length (heap w)) ps es) ++
               [item_cell i (currentIndex (mgr w))
                  (snapshot_loc (length (heap w)) ps)]) w).
Proof.
  intros H. unfold timeline_item. rewrite bind_run. cbn [get_refs].
  rewrite (bind_ok _ _ _ _ _ (snapshot_literal_spec _ _ _ _ H)).
  rewrite bind_run. unfold alloc, set_heap. cbn.
  rewrite length_app, copy_cells_length, Nat.add_assoc. reflexivity.
Qed.

Lemma timeline_item_ok_first e i ps es h idx k :
  snapshot_of h (VRef e) = Some (ps, es) →
  timeline_item_ok h
    (((h ++ copy_cells (length h) ps es) ++
      [item_cell i idx (snapshot_loc (length h) ps)]) ++ k)
    idx i e (VRef (length h + length ps + 3)).
Proof.
  intros H. exists (length h + length ps + 3), (snapshot_loc (length h) ps).
  pose proof (snapshot_of_copy h ps es) as Hc.
  split_and!; [done|lia| | |].
  - apply lookup_app_l_Some.
    rewrite lookup_app_r; rewrite length_app, copy_cells_length; [|lia].
    by replace (length h + length ps + 3 - (length h + (length ps + 3)))
      with 0 by lia.
  - rewrite H, <- app_assoc. by apply snapshot_of_app.
  - rewrite <- app_assoc.
    rewrite (snapshot_locs_app _ _ _ _ Hc), snapshot_locs_copy.
    unfold snapshot_loc. repeat (constructor; [lia|]).
    apply Forall_forall. intros x Hx. apply elem_of_seq in Hx. lia.
Qed.

Lemma timeline_item_ok_rebase h0 h1 h' idx i e item c :
  h0 `prefix_of` h1 → snapshot_of h0 (VRef e) = Some c →
  timeline_item_ok h1 h' idx i e item → timeline_item_ok h0 h' idx i e item.
Proof.
  intros [k ->] Hc (l & s & -> & Hl & Hcell & Hs & Hlocs).
  exists l, s. rewrite length_app in *.
  split_and!; [done|lia|done| |].
  - rewrite Hs, Hc. by apply snapshot_of_app.
  - eapply Forall_impl; [exact Hlocs|]. intros x Hx. cbn beta in Hx. lia.
Qed.


Lemma timeline_items_spec es : ∀ w i,
  Forall (λ e, is_Some (snapshot_of (heap w) (VRef e))) es →
  ∃ items w',
    map_elems timeline_item i (VRef <$> es) w = (Ok items, w') ∧
    heap w `prefix_of` heap w' ∧
    mgr w' = mgr w ∧
    length items = length es ∧
    ∀ j e, es !! j = Some e →
      ∃ item, items !! j = Some item ∧
        timeline_item_ok (heap w) (heap w') (currentIndex (mgr w)) (i + j) e item.
Proof.
  induction es as [|e es IH]; intros w i Hv.
  - exists [], w. split_and!; try done.
  - apply Forall_cons in Hv as [[[ps es0] He] Hv].
    pose proof (timeline_item_spec e i _ _ _ He) as Hi.
    set (w1 := set_heap _ w) in Hi.
    assert (Hw1 : heap w `prefix_of` heap w1).
    { unfold w1. simpl. rewrite <- app_assoc. by apply prefix_app_r. }
    destruct (IH w1 (S i)) as (items & w' & Hrun & Hpre & Hm & Hlen & Hitems).
    { eapply Forall_impl; [exact Hv|]. intros s [c Hc]. exists c.
      destruct Hw1 as [k ->]. by apply snapshot_of_app. }
    exists (VRef (length (heap w) + length ps + 3) :: items), w'.
    split_and!.
    + cbn [fmap list_fmap map_elems]. rewrite (bind_ok _ _ _ _ _ Hi).
      change (list_fmap nat value VRef es) with (VRef <$> es).
      by rewrite (bind_ok _ _ _ _ _ Hrun).
    + by etrans.
    + by rewrite Hm.
    + simpl. by rewrite Hlen.
    + intros [|j] e' Hj; simpl in Hj.
      * injection Hj as <-. eexists. split; [done|].
        destruct Hpre as [k Hk]. rewrite Hk. unfold w1. cbn [heap set_heap].
        rewrite Nat.add_0_r. by apply timeline_item_ok_first.
      * destruct (Hitems j e' Hj) as (item & Hit & Hok).
        exists item. split; [done|].
        rewrite Forall_lookup in Hv. destruct (Hv _ _ Hj) as [c Hc].
        replace (i + S j) with (S i + j) by lia.
        eapply timeline_item_ok_rebase; [exact Hw1|exact Hc|]. exact Hok.
Qed.

Lemma getTimeline_spec w items w1 :
  map_elems timeline_item 0 (VRef <$> history (mgr w)) w = (Ok items, w1) →
  getTimeline w =
    (Ok (VRef (length (heap w1))), set_heap (heap w1 ++ [CArr items]) w1).
Proof.
  intros Hrun. unfold getTimeline. rewrite bind_run. cbn [get_refs].
  by rewrite (bind_ok _ _ _ _ _ Hrun).
Qed.

Lemma get_prop_total h st k v k' :
  get_prop h st k = Ok v → ∃ v', get_prop h st k' = Ok v'.
Proof.
  destruct st; simpl; try done; eauto.
  - intros _. case_decide; eauto.
  - destruct (h !! l) as [[m|xs]|]; [eauto| |done].
    intros _. case_decide; eauto.
Qed.

(** * The claims *)

(** C1.  After every [addState] call with a well-formed state, from any
    world whatsoever (so in particular after [initialize] and any sequence
    of earlier calls), the call returns normally, [currentIndex] equals the
    history length minus one, and the entry it points at is the one just
    written: a newly allocated snapshot holding the content of the state. *)
Theorem addState_index_at_written_entry (w : world) (st : value) :
  is_Some (snapshot_of (heap w) st) →
  ∃ e,
    (addState st w).1 = Ok VUndef ∧
    currentIndex (mgr (addState st w).2) =
      (Z.of_nat (length (history (mgr (addState st w).2))) - 1)%Z ∧
    getCurrentState (addState st w).2 = (Ok (VRef e), (addState st w).2) ∧
    length (heap w) ≤ e ∧
    snapshot_of (heap (addState st w).2) (VRef e) = snapshot_of (heap w) st.
Proof.
  intros [[ps es] H]. exists (snapshot_loc (length (heap w)) ps).
  rewrite (addState_valid _ _ _ _ H).
  cbn [fst snd mgr heap after_push currentIndex history].
  split_and!; [done|done| |apply snapshot_loc_fresh|].
  - unfold getCurrentState. rewrite bind_run. cbn.
    by rewrite (js_index_last _ _ (pushed_last _ _)).
  - by rewrite snapshot_of_copy, H.
Qed.

(** C1 at the demo diagram, pushed on the fresh hook. *)
Lemma addState_index_at_written_entry_witness :
  ∃ e,
    (addState demo_state demo_world).1 = Ok VUndef ∧
    currentIndex (mgr (addState demo_state demo_world).2) =
      (Z.of_nat (length (history (mgr (addState demo_state demo_world).2))) - 1)%Z ∧
    getCurrentState (addState demo_state demo_world).2 =
      (Ok (VRef e), (addState demo_state demo_world).2) ∧
    length (heap demo_world) ≤ e ∧
    snapshot_of (heap (addState demo_state demo_world).2) (VRef e) =
      snapshot_of (heap demo_world) demo_state.
Proof.
  apply (addState_index_at_written_entry demo_world demo_state).
  vm_compute. eexists. reflexivity.
Defined.



(** C3.  In every reachable world the history holds at most 50 entries.  A
    push keeps the entries up to [currentIndex], drops from the front what
    exceeds 49 of them, and appends the new entry.  After more than 50
    consecutive [addState] calls the history is exactly the entries of the
    last 50 calls, each holding the content of its state, and no entry of
    an earlier call is left in it. *)
Theorem history_keeps_the_50_most_recent (w : world) :
  reachable w →
  length (history (mgr w)) ≤ 50 ∧
  (∀ st, is_Some (snapshot_of (heap w) st) →
     ∃ e, history (mgr (addState st w).2) =
            drop (S (length (kept (mgr w))) - 50) (kept (mgr w)) ++ [e]) ∧
  ∀ sts,
    Forall (λ st, is_Some (snapshot_of (heap w) st)) sts →
    50 < length sts →
    ∃ es,
      (addStates sts w).1 = Ok (VRef <$> es) ∧
      length es = length sts ∧
      history (mgr (addStates sts w).2) = drop (length sts - 50) es ∧
      length (history (mgr (addStates sts w).2)) = 50 ∧
      Forall2 (λ e st, snapshot_of (heap (addStates sts w).2) (VRef e) =
                       snapshot_of (heap w) st) es sts ∧
      ∀ e, e ∈ take (length sts - 50) es →
           e ∉ history (mgr (addStates sts w).2).
Proof.
  intros Hr. split_and!.
  - apply reachable_refs_ok in Hr as [[-> _]|[_ ?]]; simpl; lia.
  - intros st [[ps es] H]. exists (snapshot_loc (length (heap w)) ps).
    rewrite (addState_valid _ _ _ _ H). cbn [snd mgr after_push history].
    apply pushed_snoc.
  - intros sts Hv Hlen.
    destruct (addStates_spec sts w Hv)
      as (es & w' & Hrun & _ & Hh & Hc & _ & Hnd).
    rewrite Hrun. cbn [fst snd]. exists es.
    assert (Hl : length es = length sts) by (by eapply Forall2_length).
    destruct Hh as [Hh _]; [intros ->; simpl in Hlen; lia|].
    assert (Hd : history (mgr w') = drop (length sts - 50) es).
    { rewrite Hh, js_slice_tail, length_app, drop_app.
      rewrite drop_ge by lia. simpl. f_equal. lia. }
    split_and!; [done|done|done| | |].
    + rewrite Hd, length_drop. lia.
    + eapply Forall2_impl; [exact Hc|]. intros e s (c & -> & ->). done.
    + intros e He1 He2. rewrite Hd in He2.
      rewrite <- (take_drop (length sts - 50) es) in Hnd.
      apply NoDup_app in Hnd as (_ & Hdis & _). by apply (Hdis e).
Qed.

(** C3 for 51 pushes of the demo diagram on the fresh hook. *)
Lemma history_keeps_the_50_most_recent_witness :
  length (history (mgr demo_world)) ≤ 50 ∧
  ∃ es,
    (addStates (replicate 51 demo_state) demo_world).1 = Ok (VRef <$> es) ∧
    length es = length (replicate 51 demo_state) ∧
    history (mgr (addStates (replicate 51 demo_state) demo_world).2) =
      drop (length (replicate 51 demo_state) - 50) es ∧
    length (history (mgr (addStates (replicate 51 demo_state) demo_world).2))
      = 50 ∧
    Forall2 (λ e st,
       snapshot_of (heap (addStates (replicate 51 demo_state) demo_world).2)
                   (VRef e) =
       snapshot_of (heap demo_world) st) es (replicate 51 demo_state) ∧
    ∀ e, e ∈ take (length (replicate 51 demo_state) - 50) es →
         e ∉ history (mgr (addStates (replicate 51 demo_state) demo_world).2).
Proof.
  destruct (history_keeps_the_50_most_recent demo_world (reach_start demo_heap))
    as (H1 & _ & H3).
  split; [exact H1|]. apply H3.
  - apply Forall_replicate. vm_compute. eexists. reflexivity.
  - rewrite length_replicate. lia.
Defined.

(** C4.  When [currentIndex] is strictly inside the history, [undo] moves
    one entry back and an immediate [redo] returns the very entry that was
    current before the [undo], in a world identical to the one before. *)
Theorem undo_then_redo_restores (w : world) :
  (0 < currentIndex (mgr w))%Z →
  (currentIndex (mgr w) < Z.of_nat (length (history (mgr w))) - 1)%Z →
  ∃ e,
    history (mgr w) !! Z.to_nat (currentIndex (mgr w)) = Some e ∧
    getCurrentState w = (Ok (VRef e), w) ∧
    currentIndex (mgr (undo w).2) = (currentIndex (mgr w) - 1)%Z ∧
    redo (undo w).2 = (Ok (VRef e), w).
Proof.
  intros H0 H1.
  destruct (lookup_lt_is_Some_2 (history (mgr w))
              (Z.to_nat (currentIndex (mgr w)))) as [e He]; [lia|].
  assert (Hj : js_index (history (mgr w)) (currentIndex (mgr w)) = VRef e).
  { unfold js_index. destruct (Z.ltb_spec (currentIndex (mgr w)) 0); [lia|].
    by rewrite He. }
  exists e. rewrite undo_unfold.
  destruct (Z.ltb_spec 0 (currentIndex (mgr w))); [|lia].
  split_and!; [done| |done|].
  - unfold getCurrentState. rewrite bind_run. cbn. by rewrite Hj.
  - cbn [snd]. rewrite redo_unfold.
    cbn [set_mgr mgr history currentIndex isTransacting heap console].
    destruct (Z.ltb_spec (currentIndex (mgr w) - 1)
                (Z.of_nat (length (history (mgr w))) - 1)); [|lia].
    replace (currentIndex (mgr w) - 1 + 1)%Z with (currentIndex (mgr w)) by lia.
    rewrite Hj. by destruct w as [h [hs i t] c].
Qed.

(** C4 in the middle of a three-entry history. *)
Lemma undo_then_redo_restores_witness :
  ∃ e,
    history (mgr demo_middle) !! Z.to_nat (currentIndex (mgr demo_middle))
      = Some e ∧
    getCurrentState demo_middle = (Ok (VRef e), demo_middle) ∧
    currentIndex (mgr (undo demo_middle).2) =
      (currentIndex (mgr demo_middle) - 1)%Z ∧
    redo (undo demo_middle).2 = (Ok (VRef e), demo_middle).
Proof.
  apply (undo_then_redo_restores demo_middle); vm_compute; reflexivity.
Defined.

(** C5.  [undo] at index 0 returns [null] and leaves the whole world as it
    was; [redo] at the last index returns [null] and leaves the whole world
    as it was. *)
Theorem undo_redo_noop_at_ends (w : world) :
  (currentIndex (mgr w) = 0%Z → undo w = (Ok VNull, w)) ∧
  (currentIndex (mgr w) = (Z.of_nat (length (history (mgr w))) - 1)%Z →
   redo w = (Ok VNull, w)).
Proof.
  split; intros H.
  - rewrite undo_unfold, H. reflexivity.
  - rewrite redo_unfold, H, Z.ltb_irrefl. reflexivity.
Qed.

(** C5 on the freshly seeded history, where index 0 is also the last. *)
Lemma undo_redo_noop_at_ends_witness :
  undo demo_seeded = (Ok VNull, demo_seeded) ∧
  redo demo_seeded = (Ok VNull, demo_seeded).
Proof.
  destruct (undo_redo_noop_at_ends demo_seeded) as [H1 H2].
  split; [apply H1|apply H2]; reflexivity.
Defined.




(** C7 at its failing input.  [addState] is given the demo diagram, whose
    first node has its [position] object at address 0, and stores the
    snapshot at address 13.  The stored node is a new record, so renaming
    the live node leaves it alone; but its [position] is the live node's
    own object, so [position.x = 999] on the live node changes the [x] the
    stored snapshot reads, from 100 to 999. *)
Theorem addState_copy_shares_node_position :
  getCurrentState demo_pushed = (Ok (VRef 13), demo_pushed) ∧
  read_path (heap demo_pushed) demo_state ["nodes"; "0"; "position"]
    = Ok (VRef 0) ∧
  read_path (heap demo_pushed) (VRef 13) ["nodes"; "0"; "position"; "x"]
    = Ok (VNum 100) ∧
  read_path (set_field 0 "x" (VNum 999) (heap demo_pushed)) (VRef 13)
    ["nodes"; "0"; "position"; "x"] = Ok (VNum 999) ∧
  read_path (set_field 1 "id" (VStr "renamed") (heap demo_pushed)) (VRef 13)
    ["nodes"; "0"; "id"] = Ok (VStr "start").
Proof. vm_compute. done. Qed.






(** C10.  While the history is empty and [currentIndex] is -1, as the hook
    starts, [undo] and [redo] both return [null] and leave the whole world
    as it was. *)
Theorem undo_redo_before_initialize (w : world) :
  history (mgr w) = [] → currentIndex (mgr w) = (-1)%Z →
  undo w = (Ok VNull, w) ∧ redo w = (Ok VNull, w).
Proof.
  intros Hh Hi. by rewrite undo_unfold, redo_unfold, Hh, Hi.
Qed.

(** C10 on the fresh hook. *)
Lemma undo_redo_before_initialize_witness :
  undo demo_world = (Ok VNull, demo_world) ∧
  redo demo_world = (Ok VNull, demo_world).
Proof. apply (undo_redo_before_initialize demo_world); reflexivity. Defined.

(** * Further properties of the history manager *)

(** ** Helper lemmas *)

Lemma at_index_same w : at_index (currentIndex (mgr w)) w = w.
Proof. by destruct w as [h [hs i t] c]. Qed.

Lemma at_index_twice i j w : at_index i (at_index j w) = at_index i w.
Proof. reflexivity. Qed.

Lemma undo_at_index w :
  undo w =
  (Ok (if (0 <? currentIndex (mgr w))%Z
       then js_index (history (mgr w)) (currentIndex (mgr w) - 1) else VNull),
   at_index (Z.max (Z.min (currentIndex (mgr w)) 0)
                   (currentIndex (mgr w) - 1)) w).
Proof.
  rewrite undo_unfold. destruct (Z.ltb_spec 0 (currentIndex (mgr w))).
  - f_equal. unfold at_index. do 3 f_equal. lia.
  - replace (Z.max _ _) with (currentIndex (mgr w)) by lia.
    by rewrite at_index_same.
Qed.

Lemma redo_at_index w :
  redo w =
  (Ok (if (currentIndex (mgr w) <? Z.of_nat (length (history (mgr w))) - 1)%Z
       then js_index (history (mgr w)) (currentIndex (mgr w) + 1) else VNull),
   at_index (Z.max (currentIndex (mgr w))
               (Z.min (Z.of_nat (length (history (mgr w))) - 1)
                      (currentIndex (mgr w) + 1))) w).
Proof.
  rewrite redo_unfold.
  destruct (Z.ltb_spec (currentIndex (mgr w))
              (Z.of_nat (length (history (mgr w))) - 1)).
  - f_equal. unfold at_index. do 3 f_equal. lia.
  - replace (Z.max _ _) with (currentIndex (mgr w)) by lia.
    by rewrite at_index_same.
Qed.

Lemma undo_times_run (k : nat) : ∀ w,
  times k undo w =
  (Ok tt, at_index (Z.max (Z.min (currentIndex (mgr w)) 0)
                          (currentIndex (mgr w) - Z.of_nat k)) w).
Proof.
  induction k as [|k IH]; intros w.
  - cbn [times]. replace (Z.max _ _) with (currentIndex (mgr w)) by lia.
    by rewrite at_index_same.
  - cbn [times]. rewrite bind_run, undo_at_index, IH.
    set (B := Z.max _ (currentIndex (mgr w) - 1)).
    change (currentIndex (mgr (at_index B w))) with B.
    rewrite at_index_twice. do 2 f_equal. lia.
Qed.

Lemma redo_times_run (k : nat) : ∀ w,
  times k redo w =
  (Ok tt, at_index (Z.max (currentIndex (mgr w))
                      (Z.min (Z.of_nat (length (history (mgr w))) - 1)
                             (currentIndex (mgr w) + Z.of_nat k))) w).
Proof.
  induction k as [|k IH]; intros w.
  - cbn [times]. replace (Z.max _ _) with (currentIndex (mgr w)) by lia.
    by rewrite at_index_same.
  - cbn [times]. rewrite bind_run, redo_at_index, IH.
    set (B := Z.max (currentIndex (mgr w)) (Z.min _ (currentIndex (mgr w) + 1))).
    change (currentIndex (mgr (at_index B w))) with B.
    change (history (mgr (at_index B w))) with (history (mgr w)).
    rewrite at_index_twice. do 2 f_equal. lia.
Qed.

Lemma getCurrentState_unfold w :
  getCurrentState w =
  (Ok (js_index (history (mgr w)) (currentIndex (mgr w))), w).
Proof. reflexivity. Qed.

Lemma snapshot_literal_lacks_nodes st w :
  lacks (heap w) st "nodes" → snapshot_literal st w = (Throw TypeError, w).
Proof.
  intros H. unfold snapshot_literal. rewrite bind_run.
  unfold prop at 1, lift at 1.
  destruct H as [-> | ->]; reflexivity.
Qed.

Lemma pushed_nonempty r e : pushed r e ≠ [].
Proof.
  intros H. pose proof (pushed_bounds r e) as Hb.
  rewrite H in Hb. simpl in Hb. lia.
Qed.

Lemma addState_keeps_nonempty s w :
  history (mgr w) ≠ [] → history (mgr (addState s w).2) ≠ [].
Proof.
  intros H.
  destruct (addState_cases s w)
    as [(e & ->)|[->|[(e & w1 & Hs & ->)|(e & w1 & Hs & ->)]]];
    simpl; try done.
  - destruct (heap_only_snapshot_literal s w) as (Hm & _).
    rewrite Hs in Hm. simpl in Hm. by rewrite Hm.
  - apply pushed_nonempty.
Qed.

Lemma addState_keeps_flag s w :
  isTransacting (mgr (addState s w).2) = isTransacting (mgr w).
Proof.
  destruct (addState_cases s w)
    as [(e & ->)|[->|[(e & w1 & Hs & ->)|(e & w1 & Hs & ->)]]];
    simpl; try done.
  destruct (heap_only_snapshot_literal s w) as (Hm & _).
  rewrite Hs in Hm. simpl in Hm. by rewrite Hm.
Qed.

(** In a reachable world [undo] and [redo] return [null] exactly when
    their guard fails, and an entry of the history otherwise. *)
Lemma undo_redo_outcome (w : world) :
  reachable w →
  ((undo w).1 = Ok VNull ∧ (currentIndex (mgr w) ≤ 0)%Z ∨
   ∃ e, (undo w).1 = Ok (VRef e) ∧
        history (mgr w) !! Z.to_nat (currentIndex (mgr w) - 1) = Some e) ∧
  ((redo w).1 = Ok VNull ∧
     currentIndex (mgr w) = (Z.of_nat (length (history (mgr w))) - 1)%Z ∨
   ∃ e, (redo w).1 = Ok (VRef e) ∧
        history (mgr w) !! Z.to_nat (currentIndex (mgr w) + 1) = Some e).
Proof.
  intros Hr. apply reachable_refs_ok in Hr. split.
  - rewrite undo_unfold.
    destruct (Z.ltb_spec 0 (currentIndex (mgr w))); [|by left].
    right. destruct Hr as [[_ ?]|[? ?]]; [lia|].
    destruct (lookup_lt_is_Some_2 (history (mgr w))
                (Z.to_nat (currentIndex (mgr w) - 1))) as [e He]; [lia|].
    exists e. split; [|done]. cbn [fst]. unfold js_index.
    destruct (Z.ltb_spec (currentIndex (mgr w) - 1) 0); [lia|]. by rewrite He.
  - rewrite redo_unfold.
    destruct (Z.ltb_spec (currentIndex (mgr w))
                (Z.of_nat (length (history (mgr w))) - 1)).
    + right.
      destruct (lookup_lt_is_Some_2 (history (mgr w))
                  (Z.to_nat (currentIndex (mgr w) + 1))) as [e He].
      { destruct Hr as [[Hh ?]|[? ?]]; [rewrite Hh in *; simpl in *; lia|lia]. }
      exists e. split; [|done]. cbn [fst]. unfold js_index.
      destruct (Z.ltb_spec (currentIndex (mgr w) + 1) 0).
      { destruct Hr as [[Hh ?]|[? ?]]; [rewrite Hh in *; simpl in *; lia|lia]. }
      by rewrite He.
    + left. split; [done|].
      destruct Hr as [[Hh ?]|[? ?]]; [rewrite Hh in *; simpl in *; lia|lia].
Qed.

Lemma history_op_heap a w : heap (history_op a w).2 = heap w.
Proof.
  destruct a; cbn [history_op]; [rewrite undo_unfold|rewrite redo_unfold];
    by destruct (_ <? _)%Z.
Qed.

Lemma history_op_null a w :
  (history_op a w).1 = Ok VNull → history_op a w = (Ok VNull, w).
Proof.
  destruct a; cbn [history_op]; [rewrite undo_unfold|rewrite redo_unfold];
    (destruct (_ <? _)%Z; [|done]); cbn [fst]; unfold js_index;
    (destruct (_ <? _)%Z; [done|]); by destruct (history (mgr w) !! _).
Qed.

(** The two outcomes of a step through the history in a reachable world. *)
Lemma history_op_outcome a w :
  reachable w →
  (history_op a w).1 = Ok VNull ∨
  ∃ e, (history_op a w).1 = Ok (VRef e) ∧
       e ∈ history (mgr w) ∧
       getCurrentState (history_op a w).2 = (Ok (VRef e), (history_op a w).2).
Proof.
  intros Hr. destruct (undo_redo_outcome _ Hr) as [Hu Hd].
  destruct a; cbn [history_op].
  - destruct Hu as [[? _]|(e & He & Hl)]; [by left|right].
    exists e. split_and!; [done|by eapply list_elem_of_lookup_2|].
    rewrite undo_unfold in *.
    destruct (Z.ltb_spec 0 (currentIndex (mgr w))); [|done].
    cbn [fst snd] in *. rewrite getCurrentState_unfold. cbn. by rewrite He.
  - destruct Hd as [[? _]|(e & He & Hl)]; [by left|right].
    exists e. split_and!; [done|by eapply list_elem_of_lookup_2|].
    rewrite redo_unfold in *.
    destruct (Z.ltb_spec (currentIndex (mgr w))
                (Z.of_nat (length (history (mgr w))) - 1)); [|done].
    cbn [fst snd] in *. rewrite getCurrentState_unfold. cbn. by rewrite He.
Qed.

Lemma snapshot_of_copy_overwritten h ps es l c :
  l < length h →
  snapshot_of (<[l := c]> (h ++ copy_cells (length h) ps es))
              (VRef (snapshot_loc (length h) ps)) = Some (ps, es).
Proof.
  intros Hl. rewrite insert_app_l by done.
  rewrite <- (length_insert h l c). apply snapshot_of_copy.
Qed.

Lemma undoDisabled_unfold w :
  undoDisabled w = (Ok (bool_decide (currentIndex (mgr w) = 0%Z)), w).
Proof.
  unfold undoDisabled.
  rewrite (bind_ok getCurrentIndex _ w (VNum (currentIndex (mgr w))) w eq_refl).
  unfold mret, M_ret. do 2 f_equal.
  apply bool_decide_ext. split; congruence.
Qed.

Lemma redoDisabled_unfold w :
  redoDisabled w =
  (Ok (bool_decide (currentIndex (mgr w)
                    = (Z.of_nat (length (history (mgr w))) - 1)%Z)), w).
Proof.
  unfold redoDisabled.
  rewrite (bind_ok getCurrentIndex _ w (VNum (currentIndex (mgr w))) w eq_refl).
  rewrite (bind_ok getHistoryLength _ w
             (VNum (Z.of_nat (length (history (mgr w))))) w eq_refl).
  unfold mret, M_ret. do 2 f_equal.
  apply bool_decide_ext. split; congruence.
Qed.

(** ** [initialize] *)

(** X1.  [initialize] with a well-formed state, from any world, returns
    normally and leaves a history of exactly one entry, a newly allocated
    copy of the state, with [currentIndex] 0: whatever the history held
    before is discarded.  The transaction flag and the console are left
    alone and the store is only extended. *)
Theorem initialize_seeds_one_entry (w : world) (st : value) :
  is_Some (snapshot_of (heap w) st) →
  ∃ e,
    (initialize st w).1 = Ok VUndef ∧
    mgr (initialize st w).2 = Refs [e] 0 (isTransacting (mgr w)) ∧
    console (initialize st w).2 = console w ∧
    heap w `prefix_of` heap (initialize st w).2 ∧
    length (heap w) ≤ e ∧
    snapshot_of (heap (initialize st w).2) (VRef e) = snapshot_of (heap w) st.
Proof.
  intros [[ps es] H]. exists (snapshot_loc (length (heap w)) ps).
  rewrite initialize_unfold, (snapshot_literal_spec _ _ _ _ H).
  cbn [fst snd mgr heap console set_mgr set_heap].
  split_and!; [done|done|done|by apply prefix_app_r|apply snapshot_loc_fresh|].
  by rewrite snapshot_of_copy, H.
Qed.

(** X1 on a history of three entries. *)
Lemma initialize_seeds_one_entry_witness :
  ∃ e,
    (initialize demo_state demo_three).1 = Ok VUndef ∧
    mgr (initialize demo_state demo_three).2
      = Refs [e] 0 (isTransacting (mgr demo_three)) ∧
    console (initialize demo_state demo_three).2 = console demo_three ∧
    heap demo_three `prefix_of` heap (initialize demo_state demo_three).2 ∧
    length (heap demo_three) ≤ e ∧
    snapshot_of (heap (initialize demo_state demo_three).2) (VRef e)
      = snapshot_of (heap demo_three) demo_state.
Proof.
  apply (initialize_seeds_one_entry demo_three demo_state).
  vm_compute. eexists. reflexivity.
Defined.

(** X2.  [initialize] has no guard: when the [nodes] property of its
    argument reads as [undefined] or [null] it throws a TypeError and
    leaves the world as it was, where [addState] would log and return.
    Whenever [initialize] throws, the history, the index, the flag and the
    console are as before. *)
Theorem initialize_has_no_guard (w : world) (st : value) :
  (lacks (heap w) st "nodes" → initialize st w = (Throw TypeError, w)) ∧
  (∀ e, (initialize st w).1 = Throw e →
        mgr (initialize st w).2 = mgr w ∧
        console (initialize st w).2 = console w).
Proof.
  split.
  - intros H. by rewrite initialize_unfold, (snapshot_literal_lacks_nodes _ _ H).
  - intros e. rewrite initialize_unfold.
    destruct (heap_only_snapshot_literal st w) as (Hm & Hc & _).
    destruct (snapshot_literal st w) as [[s|e'] w1]; [done|]. by intros _.
Qed.

(** X2 for an object without [nodes], and for one without [edges]. *)
Lemma initialize_has_no_guard_witness :
  initialize (VRef 0) demo_seeded = (Throw TypeError, demo_seeded) ∧
  mgr (initialize demo_no_edges demo_seeded).2 = mgr demo_seeded ∧
  console (initialize demo_no_edges demo_seeded).2 = console demo_seeded.
Proof.
  split.
  - apply (initialize_has_no_guard demo_seeded (VRef 0)).
    left. vm_compute. reflexivity.
  - apply (proj2 (initialize_has_no_guard demo_seeded demo_no_edges) TypeError).
    vm_compute. reflexivity.
Defined.

(** ** Invariants of the reachable worlds *)

(** X3.  In every reachable world either the history is empty,
    [currentIndex] is -1 and [getCurrentState] returns [undefined], or
    [currentIndex] is a valid position and [getCurrentState] returns the
    entry stored there. *)
Theorem reachable_index_in_range (w : world) :
  reachable w →
  (history (mgr w) = [] ∧ currentIndex (mgr w) = (-1)%Z ∧
   getCurrentState w = (Ok VUndef, w)) ∨
  (∃ e, (0 ≤ currentIndex (mgr w) < Z.of_nat (length (history (mgr w))))%Z ∧
        history (mgr w) !! Z.to_nat (currentIndex (mgr w)) = Some e ∧
        getCurrentState w = (Ok (VRef e), w)).
Proof.
  intros Hr. apply reachable_refs_ok in Hr as [[Hh Hi]|[Hi Hl]].
  - left. split_and!; [done|done|].
    by rewrite getCurrentState_unfold, Hh, Hi.
  - right.
    destruct (lookup_lt_is_Some_2 (history (mgr w))
                (Z.to_nat (currentIndex (mgr w)))) as [e He]; [lia|].
    exists e. split_and!; [lia|lia|done|].
    rewrite getCurrentState_unfold. unfold js_index.
    destruct (Z.ltb_spec (currentIndex (mgr w)) 0); [lia|]. by rewrite He.
Qed.

(** X3 after [initialize], one [addState] and one [undo]. *)
Lemma reachable_index_in_range_witness :
  (history (mgr demo_undone) = [] ∧ currentIndex (mgr demo_undone) = (-1)%Z ∧
   getCurrentState demo_undone = (Ok VUndef, demo_undone)) ∨
  (∃ e, (0 ≤ currentIndex (mgr demo_undone)
           < Z.of_nat (length (history (mgr demo_undone))))%Z ∧
        history (mgr demo_undone) !! Z.to_nat (currentIndex (mgr demo_undone))
          = Some e ∧
        getCurrentState demo_undone = (Ok (VRef e), demo_undone)).
Proof.
  apply (reachable_index_in_range demo_undone).
  apply (reach_call Undo). apply (reach_call (AddState demo_state)).
  apply (reach_call (Initialize demo_state)). apply reach_start.
Defined.

(** X4.  No entry point ever empties a history that holds an entry,
    whether it returns or throws. *)
Theorem exec_never_empties_history (c : call) (w : world) :
  history (mgr w) ≠ [] → history (mgr (exec c w).2) ≠ [].
Proof.
  intros H. destruct c; cbn [exec].
  - rewrite initialize_unfold.
    destruct (heap_only_snapshot_literal s w) as (Hm & _).
    destruct (snapshot_literal s w) as [[e|e] w1]; simpl in *;
      [done|by rewrite Hm].
  - by apply addState_keeps_nonempty.
  - rewrite undo_unfold. by destruct (_ <? _)%Z.
  - rewrite redo_unfold. by destruct (_ <? _)%Z.
  - exact H.
  - rewrite endTransaction_unfold. by apply addState_keeps_nonempty.
  - exact H.
  - exact H.
  - exact H.
  - destruct (heap_only_getTimeline w) as (Hm & _). by rewrite Hm.
Qed.

(** X4 for an [initialize] that throws on the seeded history. *)
Lemma exec_never_empties_history_witness :
  history (mgr (exec (Initialize (VRef 0)) demo_seeded).2) ≠ [].
Proof.
  apply (exec_never_empties_history (Initialize (VRef 0)) demo_seeded).
  vm_compute. discriminate.
Defined.

(** X5.  In every reachable world [undo] and [redo] return either [null],
    leaving the world as it was, or a reference to an entry of the history
    (never [undefined]), and that entry is then the current one. *)
Theorem undo_redo_return_null_or_an_entry (w : world) :
  reachable w →
  ((undo w).1 = Ok VNull ∧ (undo w).2 = w ∨
   ∃ e, (undo w).1 = Ok (VRef e) ∧ e ∈ history (mgr w) ∧
        getCurrentState (undo w).2 = (Ok (VRef e), (undo w).2)) ∧
  ((redo w).1 = Ok VNull ∧ (redo w).2 = w ∨
   ∃ e, (redo w).1 = Ok (VRef e) ∧ e ∈ history (mgr w) ∧
        getCurrentState (redo w).2 = (Ok (VRef e), (redo w).2)).
Proof.
  intros Hr. split.
  - destruct (history_op_outcome ActUndo w Hr) as [H|H]; [left|by right].
    split; [done|]. apply (f_equal snd (history_op_null ActUndo w H)).
  - destruct (history_op_outcome ActRedo w Hr) as [H|H]; [left|by right].
    split; [done|]. apply (f_equal snd (history_op_null ActRedo w H)).
Qed.

(** X5 after [initialize], one [addState] and one [undo]. *)
Lemma undo_redo_return_null_or_an_entry_witness :
  ((undo demo_undone).1 = Ok VNull ∧ (undo demo_undone).2 = demo_undone ∨
   ∃ e, (undo demo_undone).1 = Ok (VRef e) ∧ e ∈ history (mgr demo_undone) ∧
        getCurrentState (undo demo_undone).2
          = (Ok (VRef e), (undo demo_undone).2)) ∧
  ((redo demo_undone).1 = Ok VNull ∧ (redo demo_undone).2 = demo_undone ∨
   ∃ e, (redo demo_undone).1 = Ok (VRef e) ∧ e ∈ history (mgr demo_undone) ∧
        getCurrentState (redo demo_undone).2
          = (Ok (VRef e), (redo demo_undone).2)).
Proof.
  apply (undo_redo_return_null_or_an_entry demo_undone).
  apply (reach_call Undo). apply (reach_call (AddState demo_state)).
  apply (reach_call (Initialize demo_state)). apply reach_start.
Defined.

(** ** Repeated [undo] and [redo] *)

(** X6.  [k] calls of [undo] return normally and move [currentIndex] down
    by [k] but never below 0 (and not at all when it is not positive); the
    history, the flag, the store and the console stay as they were. *)
Theorem undo_times_saturates (k : nat) (w : world) :
  (times k undo w).1 = Ok tt ∧
  currentIndex (mgr (times k undo w).2) =
    Z.max (Z.min (currentIndex (mgr w)) 0) (currentIndex (mgr w) - Z.of_nat k) ∧
  history (mgr (times k undo w).2) = history (mgr w) ∧
  isTransacting (mgr (times k undo w).2) = isTransacting (mgr w) ∧
  heap (times k undo w).2 = heap w ∧
  console (times k undo w).2 = console w.
Proof. rewrite undo_times_run. cbn. by split_and!. Qed.

(** X7.  [k] calls of [redo] return normally and move [currentIndex] up by
    [k] but never past the last entry (and not at all when it is not below
    it); everything else stays as it was. *)
Theorem redo_times_saturates (k : nat) (w : world) :
  (times k redo w).1 = Ok tt ∧
  currentIndex (mgr (times k redo w).2) =
    Z.max (currentIndex (mgr w))
      (Z.min (Z.of_nat (length (history (mgr w))) - 1)
             (currentIndex (mgr w) + Z.of_nat k)) ∧
  history (mgr (times k redo w).2) = history (mgr w) ∧
  isTransacting (mgr (times k redo w).2) = isTransacting (mgr w) ∧
  heap (times k redo w).2 = heap w ∧
  console (times k redo w).2 = console w.
Proof. rewrite redo_times_run. cbn. by split_and!. Qed.

(** X8.  When [currentIndex] is within the history and at least [k], [k]
    calls of [undo] followed by [k] calls of [redo] give back exactly the
    world they started from, after passing through index
    [currentIndex - k]. *)
Theorem undo_redo_times_roundtrip (k : nat) (w : world) :
  (Z.of_nat k ≤ currentIndex (mgr w))%Z →
  (currentIndex (mgr w) ≤ Z.of_nat (length (history (mgr w))) - 1)%Z →
  (times k undo;; times k redo) w = (Ok tt, w) ∧
  currentIndex (mgr (times k undo w).2) = (currentIndex (mgr w) - Z.of_nat k)%Z.
Proof.
  intros Hk Hl. rewrite bind_run, undo_times_run. split.
  - rewrite redo_times_run.
    set (B := Z.max _ (currentIndex (mgr w) - Z.of_nat k)).
    change (currentIndex (mgr (at_index B w))) with B.
    change (history (mgr (at_index B w))) with (history (mgr w)).
    rewrite at_index_twice.
    replace (Z.max B _) with (currentIndex (mgr w)) by lia.
    by rewrite at_index_same.
  - cbn. lia.
Qed.

(** X8 for two steps back and forth from the tip of three entries. *)
Lemma undo_redo_times_roundtrip_witness :
  (times 2 undo;; times 2 redo) demo_three = (Ok tt, demo_three) ∧
  currentIndex (mgr (times 2 undo demo_three).2)
    = (currentIndex (mgr demo_three) - Z.of_nat 2)%Z.
Proof.
  apply (undo_redo_times_roundtrip 2 demo_three); vm_compute; discriminate.
Defined.

(** ** What a stored snapshot shares with the live state *)

(** X9.  After [addState] or [initialize] has stored a well-formed state,
    overwriting any cell that existed before the call (the state object,
    its arrays, its node records, anything they refer to) leaves the
    content of the stored snapshot, one level into each node, as it was
    stored. *)
Theorem stored_snapshot_survives_writes_to_live_state (w : world) (st : value) :
  is_Some (snapshot_of (heap w) st) →
  (∃ e, getCurrentState (addState st w).2 = (Ok (VRef e), (addState st w).2) ∧
        ∀ l c, l < length (heap w) →
          snapshot_of (<[l := c]> (heap (addState st w).2)) (VRef e)
          = snapshot_of (heap w) st) ∧
  (∃ e, getCurrentState (initialize st w).2
          = (Ok (VRef e), (initialize st w).2) ∧
        ∀ l c, l < length (heap w) →
          snapshot_of (<[l := c]> (heap (initialize st w).2)) (VRef e)
          = snapshot_of (heap w) st).
Proof.
  intros [[ps es] H]. split; exists (snapshot_loc (length (heap w)) ps).
  - rewrite (addState_valid _ _ _ _ H). cbn [snd heap]. split.
    + apply (getCurrentState_after_push
               (set_heap (heap w ++ copy_cells (length (heap w)) ps es) w)).
    + intros l c Hl. by rewrite H, snapshot_of_copy_overwritten.
  - rewrite initialize_unfold, (snapshot_literal_spec _ _ _ _ H).
    cbn [snd heap set_mgr set_heap]. split; [reflexivity|].
    intros l c Hl. by rewrite H, snapshot_of_copy_overwritten.
Qed.

(** X9 for the demo diagram on the fresh hook. *)
Lemma stored_snapshot_survives_writes_to_live_state_witness :
  (∃ e, getCurrentState (addState demo_state demo_world).2
          = (Ok (VRef e), (addState demo_state demo_world).2) ∧
        ∀ l c, l < length (heap demo_world) →
          snapshot_of (<[l := c]> (heap (addState demo_state demo_world).2))
                      (VRef e)
          = snapshot_of (heap demo_world) demo_state) ∧
  (∃ e, getCurrentState (initialize demo_state demo_world).2
          = (Ok (VRef e), (initialize demo_state demo_world).2) ∧
        ∀ l c, l < length (heap demo_world) →
          snapshot_of (<[l := c]> (heap (initialize demo_state demo_world).2))
                      (VRef e)
          = snapshot_of (heap demo_world) demo_state).
Proof.
  apply (stored_snapshot_survives_writes_to_live_state demo_world demo_state).
  vm_compute. eexists. reflexivity.
Defined.

(** X10.  The snapshot [addState] stores has a node array and an edge array
    of its own, both newly allocated, and every element of its node array
    is a newly allocated record; its edge array holds exactly the elements
    of the live edge array, so the edge objects themselves are shared
    between the live state and the snapshot. *)
Theorem stored_arrays_are_new_edges_are_shared (w : world) (st : value) :
  is_Some (snapshot_of (heap w) st) →
  ∃ e na ea ea0 ns es,
    getCurrentState (addState st w).2 = (Ok (VRef e), (addState st w).2) ∧
    get_prop (heap (addState st w).2) (VRef e) "nodes" = Ok (VRef na) ∧
    get_prop (heap (addState st w).2) (VRef e) "edges" = Ok (VRef ea) ∧
    length (heap w) ≤ na ∧ length (heap w) ≤ ea ∧
    heap (addState st w).2 !! na = Some (CArr ns) ∧
    Forall (λ n, ∃ l, n = VRef l ∧ length (heap w) ≤ l) ns ∧
    get_prop (heap w) st "edges" = Ok (VRef ea0) ∧
    heap w !! ea0 = Some (CArr es) ∧
    heap (addState st w).2 !! ea0 = Some (CArr es) ∧
    heap (addState st w).2 !! ea = Some (CArr es).
Proof.
  intros [[ps es] H]. rewrite (addState_valid _ _ _ _ H). cbn [snd heap].
  apply snapshot_of_inv in H
    as (l & m & na0 & ns0 & ea0 & -> & Hl & Hn & Hna & He & Hea & Hp).
  exists (snapshot_loc (length (heap w)) ps),
    (length (heap w) + length ps), (length (heap w) + length ps + 1), ea0,
    (VRef <$> seq (length (heap w)) (length ps)), es.
  split_and!.
  - apply (getCurrentState_after_push
             (set_heap (heap w ++ copy_cells (length (heap w)) ps es) w)).
  - cbn [get_prop]. by rewrite copy_cells_object, literal_nodes.
  - cbn [get_prop]. by rewrite copy_cells_object, literal_edges.
  - lia.
  - lia.
  - apply copy_cells_nodes.
  - apply Forall_fmap, Forall_forall. intros x Hx.
    apply elem_of_seq in Hx. simpl. exists x. split; [done|lia].
  - cbn [get_prop]. by rewrite Hl, He.
  - done.
  - by apply lookup_app_l_Some.
  - apply copy_cells_edges.
Qed.

(** X10 for the demo diagram on the fresh hook. *)
Lemma stored_arrays_are_new_edges_are_shared_witness :
  ∃ e na ea ea0 ns es,
    getCurrentState (addState demo_state demo_world).2
      = (Ok (VRef e), (addState demo_state demo_world).2) ∧
    get_prop (heap (addState demo_state demo_world).2) (VRef e) "nodes"
      = Ok (VRef na) ∧
    get_prop (heap (addState demo_state demo_world).2) (VRef e) "edges"
      = Ok (VRef ea) ∧
    length (heap demo_world) ≤ na ∧ length (heap demo_world) ≤ ea ∧
    heap (addState demo_state demo_world).2 !! na = Some (CArr ns) ∧
    Forall (λ n, ∃ l, n = VRef l ∧ length (heap demo_world) ≤ l) ns ∧
    get_prop (heap demo_world) demo_state "edges" = Ok (VRef ea0) ∧
    heap demo_world !! ea0 = Some (CArr es) ∧
    heap (addState demo_state demo_world).2 !! ea0 = Some (CArr es) ∧
    heap (addState demo_state demo_world).2 !! ea = Some (CArr es).
Proof.
  apply (stored_arrays_are_new_edges_are_shared demo_world demo_state).
  vm_compute. eexists. reflexivity.
Defined.

(** ** The guard of [addState] and the end of a transaction *)

(** X11.  [endTransaction] leaves the transaction flag clear whatever its
    argument and whether it returns or throws.  When the [nodes] or the
    [edges] property of the argument reads as [undefined] or [null], it
    returns normally with one more line on the console and the history and
    the index as they were: the gesture leaves no entry. *)
Theorem endTransaction_always_clears_flag (w : world) (st : value) :
  isTransacting (mgr (endTransaction st w).2) = false ∧
  (lacks (heap w) st "nodes" ∨ lacks (heap w) st "edges" →
   (endTransaction st w).1 = Ok VUndef ∧
   history (mgr (endTransaction st w).2) = history (mgr w) ∧
   currentIndex (mgr (endTransaction st w).2) = currentIndex (mgr w) ∧
   console (endTransaction st w).2 = console w ++ [[VStr "Invalid state:"; st]]).
Proof.
  rewrite endTransaction_unfold. split.
  - by rewrite addState_keeps_flag.
  - intros [[H|H]|[H|H]].
    + erewrite addState_falsy; [done|exact H|]. by left.
    + erewrite addState_falsy; [done|exact H|]. by left.
    + destruct (get_prop_total _ _ _ _ "nodes" H) as [vn Hn].
      erewrite addState_falsy; [done|exact Hn|]. right. by eexists.
    + destruct (get_prop_total _ _ _ _ "nodes" H) as [vn Hn].
      erewrite addState_falsy; [done|exact Hn|]. right. by eexists.
Qed.

(** X11 for a drag that ends with a state without [edges]. *)
Lemma endTransaction_always_clears_flag_witness :
  isTransacting (mgr (endTransaction demo_no_edges demo_dragging).2) = false ∧
  (endTransaction demo_no_edges demo_dragging).1 = Ok VUndef ∧
  history (mgr (endTransaction demo_no_edges demo_dragging).2)
    = history (mgr demo_dragging) ∧
  currentIndex (mgr (endTransaction demo_no_edges demo_dragging).2)
    = currentIndex (mgr demo_dragging) ∧
  console (endTransaction demo_no_edges demo_dragging).2
    = console demo_dragging ++ [[VStr "Invalid state:"; demo_no_edges]].
Proof.
  destruct (endTransaction_always_clears_flag demo_dragging demo_no_edges)
    as [H1 H2].
  split; [exact H1|]. apply H2. right. left. vm_compute. reflexivity.
Defined.

(** X12.  The guard of [addState] tests truthiness only.  When [nodes] and
    [edges] are both truthy but [nodes] is not an array (a number, a
    string, [true], a plain object), the call passes the guard and throws a
    TypeError at [map]; nothing is logged and the world is as before. *)
Theorem addState_guard_admits_non_arrays (w : world) (st vn ve : value) :
  get_prop (heap w) st "nodes" = Ok vn → truthy vn = true →
  get_prop (heap w) st "edges" = Ok ve → truthy ve = true →
  array_at (heap w) vn = None →
  (∀ l, vn = VRef l → is_Some (heap w !! l)) →
  addState st w = (Throw TypeError, w).
Proof.
  intros Hn Tn He Te Ha Hd.
  rewrite addState_unfold, Hn, Tn, He, Te.
  assert (snapshot_literal st w = (Throw TypeError, w)) as ->; [|done].
  unfold snapshot_literal. rewrite bind_run. unfold prop at 1, lift at 1.
  rewrite Hn. unfold array_map. rewrite bind_run, bind_run. unfold lift at 1.
  destruct vn as [| | | | |l]; try done.
  simpl in Ha. destruct (Hd l eq_refl) as [c Hc]. rewrite Hc in *.
  by destruct c.
Qed.

(** X12 for a state whose [nodes] is 5 and whose [edges] is 7. *)
Lemma addState_guard_admits_non_arrays_witness :
  addState (VRef 0) demo_numbers = (Throw TypeError, demo_numbers).
Proof.
  apply (addState_guard_admits_non_arrays demo_numbers (VRef 0) (VNum 5) (VNum 7));
    try reflexivity.
  intros l [=].
Defined.

(** ** The timeline and the toolbar *)

(** X13.  In a reachable world whose entries are well-formed snapshots,
    [getTimeline] returns one item per entry whose [id] is its position and
    whose [active] is true for the item at [currentIndex] and for no other;
    that item exists whenever the history is not empty. *)
Theorem timeline_marks_exactly_the_current_entry (w : world) :
  reachable w →
  Forall (λ e, is_Some (snapshot_of (heap w) (VRef e))) (history (mgr w)) →
  ∃ t items,
    (getTimeline w).1 = Ok (VRef t) ∧
    heap (getTimeline w).2 !! t = Some (CArr items) ∧
    length items = length (history (mgr w)) ∧
    (history (mgr w) ≠ [] → Z.to_nat (currentIndex (mgr w)) < length items) ∧
    ∀ i item, items !! i = Some item →
      ∃ l s, item = VRef l ∧
        heap (getTimeline w).2 !! l =
          Some (CObj {[ "id" := VNum (Z.of_nat i);
                        "active" := VBool (bool_decide
                                      (i = Z.to_nat (currentIndex (mgr w))));
                        "state" := VRef s ]}).
Proof.
  intros Hr Hv. apply reachable_refs_ok in Hr.
  destruct (timeline_items_spec _ w 0 Hv)
    as (items & w1 & Hrun & Hpre & Hm & Hlen & Hitems).
  rewrite (getTimeline_spec _ _ _ Hrun). cbn [fst snd heap set_heap].
  exists (length (heap w1)), items. split_and!.
  - done.
  - by rewrite lookup_app_r, Nat.sub_diag.
  - done.
  - intros Hne. destruct Hr as [[? _]|[? _]]; [done|lia].
  - intros i item Hi.
    destruct (lookup_lt_is_Some_2 (history (mgr w)) i) as [e He].
    { rewrite <- Hlen. by eapply lookup_lt_Some. }
    destruct (Hitems i e He) as (item' & Hi' & l & s & -> & _ & Hcell & _).
    rewrite Hi in Hi'. injection Hi' as ->.
    exists l, s. split; [done|].
    rewrite (lookup_app_l_Some _ _ _ _ Hcell). unfold item_cell. simpl.
    do 4 f_equal.
    assert (0 ≤ currentIndex (mgr w))%Z.
    { destruct Hr as [[Hh _]|[? _]]; [by rewrite Hh in He|lia]. }
    destruct (Z.eqb_spec (Z.of_nat i) (currentIndex (mgr w))).
    + rewrite bool_decide_eq_true_2; [done|lia].
    + rewrite bool_decide_eq_false_2; [done|lia].
Qed.

(** X13 after [initialize], one [addState] and one [undo]. *)
Lemma timeline_marks_exactly_the_current_entry_witness :
  ∃ t items,
    (getTimeline demo_undone).1 = Ok (VRef t) ∧
    heap (getTimeline demo_undone).2 !! t = Some (CArr items) ∧
    length items = length (history (mgr demo_undone)) ∧
    (history (mgr demo_undone) ≠ [] →
     Z.to_nat (currentIndex (mgr demo_undone)) < length items) ∧
    ∀ i item, items !! i = Some item →
      ∃ l s, item = VRef l ∧
        heap (getTimeline demo_undone).2 !! l =
          Some (CObj {[ "id" := VNum (Z.of_nat i);
                        "active" := VBool (bool_decide
                                      (i = Z.to_nat (currentIndex (mgr demo_undone))));
                        "state" := VRef s ]}).
Proof.
  apply (timeline_marks_exactly_the_current_entry demo_undone).
  - apply (reach_call Undo). apply (reach_call (AddState demo_state)).
    apply (reach_call (Initialize demo_state)). apply reach_start.
  - vm_compute. repeat constructor; eexists; reflexivity.
Defined.

(** X14.  In every reachable world the Redo button is disabled exactly when
    [redo] would return [null].  The Undo button is disabled exactly when
    [undo] would return [null] once the history holds an entry; before
    that, it is enabled although [undo] returns [null] and changes
    nothing. *)
Theorem toolbar_against_the_guards (w : world) :
  reachable w →
  redoDisabled w = (Ok (bool_decide ((redo w).1 = Ok VNull)), w) ∧
  (history (mgr w) ≠ [] →
   undoDisabled w = (Ok (bool_decide ((undo w).1 = Ok VNull)), w)) ∧
  (history (mgr w) = [] →
   undoDisabled w = (Ok false, w) ∧ undo w = (Ok VNull, w)).
Proof.
  intros Hr. destruct (undo_redo_outcome w Hr) as [Hu Hd].
  apply reachable_refs_ok in Hr.
  rewrite undoDisabled_unfold, redoDisabled_unfold. split_and!.
  - do 2 f_equal. apply bool_decide_ext.
    destruct Hd as [[-> Hi]|(e & He & Hl)]; [done|].
    rewrite He. split; [|done]. intros Hi.
    apply lookup_lt_Some in Hl.
    destruct Hr as [[Hh ?]|[? ?]]; [rewrite Hh in *; simpl in *; lia|lia].
  - intros Hne. do 2 f_equal. apply bool_decide_ext.
    destruct Hr as [[? _]|[Hi _]]; [done|].
    destruct Hu as [[-> ?]|(e & He & Hl)]; [split; [done|lia]|].
    rewrite He. split; [|done]. intros Hz. rewrite Hz in Hl. simpl in Hl.
    rewrite undo_unfold, Hz in He. done.
  - intros Hh. destruct Hr as [[_ Hi]|[? _]]; [|rewrite Hh in *; simpl in *; lia].
    by rewrite undo_unfold, Hi.
Qed.

(** X14 on the fresh hook, where Undo is enabled and does nothing. *)
Lemma toolbar_against_the_guards_witness :
  redoDisabled demo_world
    = (Ok (bool_decide ((redo demo_world).1 = Ok VNull)), demo_world) ∧
  undoDisabled demo_world = (Ok false, demo_world) ∧
  undo demo_world = (Ok VNull, demo_world).
Proof.
  destruct (toolbar_against_the_guards demo_world (reach_start demo_heap))
    as (H1 & _ & H3).
  split; [exact H1|]. apply H3. reflexivity.
Defined.

(** X22.  In every reachable world the Undo button is drawn active exactly
    when [undo] would return an entry, and the Redo button exactly when
    [redo] would: the colours follow the guards of the two operations also
    before the history is seeded, where the [disabled] attribute of the
    Undo button does not. *)
Theorem toolbar_colours_follow_the_guards (w : world) :
  reachable w →
  undoActive w = (Ok (returns_entry (undo w).1), w) ∧
  redoActive w = (Ok (returns_entry (redo w).1), w).
Proof.
  intros Hr. destruct (undo_redo_outcome w Hr) as [Hu Hd].
  split.
  - unfold undoActive.
    rewrite (bind_ok getCurrentIndex _ w (VNum (currentIndex (mgr w))) w eq_refl).
    unfold mret, M_ret. do 2 f_equal.
    destruct (Z.ltb_spec 0 (currentIndex (mgr w))).
    + destruct Hu as [[_ ?]|(e & -> & _)]; [lia|done].
    + rewrite undo_unfold.
      by destruct (Z.ltb_spec 0 (currentIndex (mgr w))); [lia|].
  - unfold redoActive.
    rewrite (bind_ok getCurrentIndex _ w (VNum (currentIndex (mgr w))) w eq_refl).
    rewrite (bind_ok getHistoryLength _ w
               (VNum (Z.of_nat (length (history (mgr w))))) w eq_refl).
    unfold mret, M_ret. do 2 f_equal.
    destruct (Z.ltb_spec (currentIndex (mgr w))
                (Z.of_nat (length (history (mgr w))) - 1)).
    + destruct Hd as [[_ ?]|(e & -> & _)]; [lia|done].
    + rewrite redo_unfold.
      by destruct (Z.ltb_spec (currentIndex (mgr w))
                     (Z.of_nat (length (history (mgr w))) - 1)); [lia|].
Qed.

(** X22 on the fresh hook, where both buttons are drawn inactive. *)
Lemma toolbar_colours_follow_the_guards_witness :
  undoActive demo_world = (Ok (returns_entry (undo demo_world).1), demo_world) ∧
  redoActive demo_world = (Ok (returns_entry (redo demo_world).1), demo_world).
Proof.
  apply (toolbar_colours_follow_the_guards demo_world).
  apply reach_start.
Defined.

(** * The handlers of the component *)

(** ** Running handlers *)

Lemma ebind_run {A B} (m : E A) (k : A → E B) c :
  (m ≫= k) c =
  match m c with (Ok a, c') => k a c' | (Throw e, c') => (Throw e, c') end.
Proof. reflexivity. Qed.

Lemma ebind_ok {A B} (m : E A) (k : A → E B) c a c' :
  m c = (Ok a, c') → (m ≫= k) c = k a c'.
Proof. intros H. by rewrite ebind_run, H. Qed.

Lemma in_store_ok {A} (m : M A) c a w :
  m (store c) = (Ok a, w) → in_store m c = (Ok a, set_store w c).
Proof. intros H. unfold in_store. by rewrite H. Qed.

Lemma set_store_same c : set_store (store c) c = c.
Proof. by destruct c. Qed.

Lemma keeps_refs_ret {A} (a : A) : keeps_refs (mret a : E A).
Proof. by intros c. Qed.

Lemma keeps_refs_bind {A B} (m : E A) (k : A → E B) :
  keeps_refs m → (∀ a, keeps_refs (k a)) → keeps_refs (m ≫= k).
Proof.
  intros Hm Hk c. rewrite ebind_run.
  destruct (Hm c) as [H1 H2].
  destruct (m c) as [[a|e] c1]; simpl in *; [|done].
  destruct (Hk a c1) as [H3 H4]. split; congruence.
Qed.

Lemma keeps_refs_in_store {A} (m : M A) : heap_only m → keeps_refs (in_store m).
Proof.
  intros Hm c. unfold in_store. destruct (Hm (store c)) as (H1 & _).
  by destruct (m (store c)) as [o w].
Qed.

Lemma heap_only_array_map_spread v :
  heap_only (array_map (λ n _, spread_object n) v).
Proof. unfold array_map. frame. Qed.

Lemma heap_only_array_spread v : heap_only (array_spread v).
Proof. unfold array_spread. frame. Qed.

(** ** Reads that change nothing *)

Lemma position_dragging_pure x w : (position_dragging x w).2 = w.
Proof.
  unfold position_dragging. rewrite bind_run. unfold prop at 1, lift at 1.
  destruct (get_prop (heap w) x "type") as [t|e]; [|done].
  case_bool_decide; [|done].
  rewrite bind_run. unfold prop, lift.
  by destruct (get_prop (heap w) x "dragging").
Qed.

Lemma some_elems_pure xs w : (some_elems position_dragging xs w).2 = w.
Proof.
  induction xs as [|x xs IH]; [done|].
  cbn [some_elems]. rewrite bind_run.
  pose proof (position_dragging_pure x w) as Hp.
  destruct (position_dragging x w) as [[b|e] w1]; simpl in Hp; subst w1; [|done].
  by destruct b.
Qed.

Lemma array_some_pure arr w : (array_some position_dragging arr w).2 = w.
Proof.
  unfold array_some. rewrite bind_run. unfold lift.
  destruct arr; try done.
  destruct (heap w !! l) as [[m|xs]|]; try done.
  apply some_elems_pure.
Qed.

(** ** The state literal and the copy handed to the renderer *)

Lemma state_literal_run n e w :
  state_literal n e w =
  (Ok (VRef (length (heap w))),
   set_heap (heap w ++ [CObj {[ "nodes" := n; "edges" := e ]}]) w).
Proof. reflexivity. Qed.

Lemma diagram_of_inv h n e ps es :
  diagram_of h n e = Some (ps, es) →
  ∃ ns, array_at h n = Some ns ∧ array_at h e = Some es ∧
        mapM (own_props h) ns = Some ps.
Proof.
  unfold diagram_of. intros H.
  destruct (array_at h n) as [ns|]; [|done]. simpl in H.
  destruct (array_at h e) as [es'|]; [|done]. simpl in H.
  destruct (mapM (own_props h) ns) as [ps'|] eqn:Hp; [|done].
  simpl in H. injection H as <- <-. eauto.
Qed.

Lemma state_literal_snapshot h n e d :
  diagram_of h n e = Some d →
  snapshot_of (h ++ [CObj {[ "nodes" := n; "edges" := e ]}]) (VRef (length h))
  = Some d.
Proof.
  destruct d as [ps es]. intros H.
  apply diagram_of_inv in H as (ns & Hn & He & Hp).
  apply array_at_inv in Hn as (na & -> & Hna).
  apply array_at_inv in He as (ea & -> & Hea).
  eapply snapshot_of_intro.
  - by rewrite lookup_app_r, Nat.sub_diag.
  - apply literal_nodes.
  - by apply lookup_app_l_Some.
  - apply literal_edges.
  - by apply lookup_app_l_Some.
  - by apply mapM_own_props_app.
Qed.

Lemma pushed_ext r r' e :
  history r = history r' → currentIndex r = currentIndex r' →
  pushed r e = pushed r' e.
Proof. intros Hh Hi. unfold pushed, kept. by rewrite Hh, Hi. Qed.

Lemma array_map_spread_spec na ns ps w :
  heap w !! na = Some (CArr ns) →
  mapM (own_props (heap w)) ns = Some ps →
  array_map (λ n _, spread_object n) (VRef na) w =
    (Ok (VRef (length (heap w) + length ps)),
     set_heap ((heap w ++ (CObj <$> ps)) ++
               [CArr (VRef <$> seq (length (heap w)) (length ps))]) w).
Proof.
  intros Hna Hp. unfold array_map.
  erewrite bind_ok; last first.
  { unfold lift. by rewrite Hna. }
  erewrite bind_ok; last by apply map_spread_spec.
  unfold alloc, mbind, mret, M_bind, M_ret. simpl.
  by rewrite length_app, length_fmap.
Qed.

Lemma array_spread_spec ea es w :
  heap w !! ea = Some (CArr es) →
  array_spread (VRef ea) w =
    (Ok (VRef (length (heap w))), set_heap (heap w ++ [CArr es]) w).
Proof.
  intros Hea. unfold array_spread.
  erewrite bind_ok; last first.
  { unfold lift. simpl. by rewrite Hea. }
  reflexivity.
Qed.

Lemma diagram_of_shown h ps es :
  diagram_of (h ++ shown_cells (length h) ps es)
    (VRef (length h + length ps)) (VRef (length h + length ps + 1))
  = Some (ps, es).
Proof.
  assert (Hn : (h ++ shown_cells (length h) ps es) !! (length h + length ps)
               = Some (CArr (VRef <$> seq (length h) (length ps)))).
  { rewrite lookup_app_r by lia. unfold shown_cells.
    rewrite lookup_app_r by (rewrite length_fmap; lia).
    rewrite length_fmap.
    by replace (length h + length ps - length h - length ps) with 0 by lia. }
  assert (He : (h ++ shown_cells (length h) ps es) !! (length h + length ps + 1)
               = Some (CArr es)).
  { rewrite lookup_app_r by lia. unfold shown_cells.
    rewrite lookup_app_r by (rewrite length_fmap; lia).
    rewrite length_fmap.
    by replace (length h + length ps + 1 - length h - length ps) with 1 by lia. }
  unfold diagram_of, array_at. rewrite Hn, He. cbn [mbind option_bind].
  assert (Hp : mapM (own_props (h ++ shown_cells (length h) ps es))
                 (VRef <$> seq (length h) (length ps)) = Some ps).
  { apply mapM_Some. apply Forall2_same_length_lookup_2.
    - by rewrite length_fmap, length_seq.
    - intros i v p Hv Hp.
      apply list_lookup_fmap_Some_1 in Hv as (l & -> & Hl).
      apply lookup_seq in Hl as [-> _]. simpl.
      rewrite lookup_app_r by lia.
      replace (length h + i - length h) with i by lia.
      unfold shown_cells.
      rewrite (lookup_app_l_Some _ _ _ (CObj p)); [done|].
      by rewrite list_lookup_fmap, Hp. }
  by rewrite Hp.
Qed.

Lemma diagram_of_showing ps es c :
  diagram_of (heap (store (showing ps es c)))
    (nodes (showing ps es c)) (edges (showing ps es c)) = Some (ps, es).
Proof. apply diagram_of_shown. Qed.

(** ** The end of a drag *)

Lemma handleDragEnd_idle (c : component) :
  isDragging c = false → handleDragEnd c = (Ok tt, c).
Proof.
  intros Hd. unfold handleDragEnd. rewrite ebind_run. cbn [rendered].
  by rewrite Hd.
Qed.

Lemma handleDragEnd_dragging (c : component) d :
  isDragging c = true →
  diagram_of (heap (store c)) (nodes c) (edges c) = Some d →
  ∃ e,
    (handleDragEnd c).1 = Ok tt ∧
    isDragging (handleDragEnd c).2 = false ∧
    isTransacting (mgr (store (handleDragEnd c).2)) = false ∧
    history (mgr (store (handleDragEnd c).2)) = pushed (mgr (store c)) e ∧
    currentIndex (mgr (store (handleDragEnd c).2)) =
      (Z.of_nat (length (history (mgr (store (handleDragEnd c).2)))) - 1)%Z ∧
    length (heap (store c)) < e ∧
    snapshot_of (heap (store (handleDragEnd c).2)) (VRef e) = Some d ∧
    nodes (handleDragEnd c).2 = nodes c ∧ edges (handleDragEnd c).2 = edges c.
Proof.
  intros Hd Hdiag. destruct d as [ps es].
  pose proof (state_literal_snapshot _ _ _ _ Hdiag) as Hs.
  set (h1 := heap (store c)
             ++ [CObj {[ "nodes" := nodes c; "edges" := edges c ]}]) in *.
  exists (snapshot_loc (length h1) ps).
  unfold handleDragEnd. rewrite ebind_run. cbn [rendered]. rewrite Hd.
  rewrite (ebind_ok _ _ _ _ _ (in_store_ok _ _ _ _ (state_literal_run _ _ _))).
  erewrite ebind_ok; last first.
  { apply in_store_ok. rewrite endTransaction_unfold.
    apply (addState_valid _ ps es). exact Hs. }
  cbn. split_and!; try done.
  - unfold h1, snapshot_loc. rewrite length_app. simpl. lia.
  - apply snapshot_of_copy.
Qed.

(** X15.  [handleDragEnd] does nothing at all when no drag is in progress.
    When one is, and the rendered diagram is well-formed, it returns
    normally, clears [isDragging] and the transaction flag, and pushes
    exactly one entry, a newly allocated copy of the rendered diagram, at
    which [currentIndex] then points; the rendered values are left alone. *)
Theorem handleDragEnd_commits_or_does_nothing (c : component) :
  (isDragging c = false → handleDragEnd c = (Ok tt, c)) ∧
  (isDragging c = true →
   is_Some (diagram_of (heap (store c)) (nodes c) (edges c)) →
   ∃ e,
     (handleDragEnd c).1 = Ok tt ∧
     isDragging (handleDragEnd c).2 = false ∧
     isTransacting (mgr (store (handleDragEnd c).2)) = false ∧
     history (mgr (store (handleDragEnd c).2)) = pushed (mgr (store c)) e ∧
     currentIndex (mgr (store (handleDragEnd c).2)) =
       (Z.of_nat (length (history (mgr (store (handleDragEnd c).2)))) - 1)%Z ∧
     length (heap (store c)) < e ∧
     snapshot_of (heap (store (handleDragEnd c).2)) (VRef e)
       = diagram_of (heap (store c)) (nodes c) (edges c) ∧
     nodes (handleDragEnd c).2 = nodes c ∧ edges (handleDragEnd c).2 = edges c).
Proof.
  split; [apply handleDragEnd_idle|].
  intros Hd [d Hdiag]. rewrite Hdiag. by apply handleDragEnd_dragging.
Qed.

(** X15 for the idle component and for the component in a drag. *)
Lemma handleDragEnd_commits_or_does_nothing_witness :
  handleDragEnd demo_component = (Ok tt, demo_component) ∧
  ∃ e,
    (handleDragEnd demo_component_dragging).1 = Ok tt ∧
    isDragging (handleDragEnd demo_component_dragging).2 = false ∧
    isTransacting (mgr (store (handleDragEnd demo_component_dragging).2))
      = false ∧
    history (mgr (store (handleDragEnd demo_component_dragging).2))
      = pushed (mgr (store demo_component_dragging)) e ∧
    currentIndex (mgr (store (handleDragEnd demo_component_dragging).2)) =
      (Z.of_nat (length (history
         (mgr (store (handleDragEnd demo_component_dragging).2)))) - 1)%Z ∧
    length (heap (store demo_component_dragging)) < e ∧
    snapshot_of (heap (store (handleDragEnd demo_component_dragging).2)) (VRef e)
      = diagram_of (heap (store demo_component_dragging))
          (nodes demo_component_dragging) (edges demo_component_dragging) ∧
    nodes (handleDragEnd demo_component_dragging).2
      = nodes demo_component_dragging ∧
    edges (handleDragEnd demo_component_dragging).2
      = edges demo_component_dragging.
Proof.
  split.
  - apply (handleDragEnd_commits_or_does_nothing demo_component). reflexivity.
  - apply (handleDragEnd_commits_or_does_nothing demo_component_dragging).
    + reflexivity.
    + vm_compute. eexists. reflexivity.
Defined.

(** ** Node changes and the whole drag *)

Section node_changes.
Context (onNodesChange : value → E unit).
Hypothesis onNodesChange_keeps_refs : ∀ ch, keeps_refs (onNodesChange ch).

Lemma handleNodesChange_run ch c :
  handleNodesChange onNodesChange ch c =
  match (array_some position_dragging ch (store c)).1 with
  | Ok d =>
      onNodesChange ch
        (if d && negb (isDragging c)
         then Component (nodes c) (edges c) true (console_log c ++ [[ch]])
                (set_mgr (Refs (history (mgr (store c)))
                               (currentIndex (mgr (store c))) true) (store c))
         else Component (nodes c) (edges c) (isDragging c)
                (console_log c ++ [[ch]]) (store c))
  | Throw e =>
      (Throw e, Component (nodes c) (edges c) (isDragging c)
                  (console_log c ++ [[ch]]) (store c))
  end.
Proof.
  unfold handleNodesChange. rewrite ebind_run. cbn [console_dot_log].
  rewrite ebind_run. unfold in_store at 1. cbn [store].
  pose proof (array_some_pure ch (store c)) as Hp.
  destruct (array_some position_dragging ch (store c)) as [[d|e] w1];
    simpl in Hp; subst w1; cbn [fst]; [|done].
  rewrite ebind_run.
  cbn [rendered set_store isDragging nodes edges console_log store].
  rewrite ebind_run.
  destruct (d && negb (isDragging c)); reflexivity.
Qed.

Lemma handleNodesChange_step ch c :
  history (mgr (store (handleNodesChange onNodesChange ch c).2))
    = history (mgr (store c)) ∧
  currentIndex (mgr (store (handleNodesChange onNodesChange ch c).2))
    = currentIndex (mgr (store c)) ∧
  (isDragging c = true →
   isDragging (handleNodesChange onNodesChange ch c).2 = true) ∧
  ((array_some position_dragging ch (store c)).1 = Ok true →
   isDragging (handleNodesChange onNodesChange ch c).2 = true).
Proof.
  rewrite handleNodesChange_run.
  destruct ((array_some position_dragging ch (store c)).1) as [d|e].
  - destruct (onNodesChange_keeps_refs ch
      (if d && negb (isDragging c)
       then Component (nodes c) (edges c) true (console_log c ++ [[ch]])
              (set_mgr (Refs (history (mgr (store c)))
                             (currentIndex (mgr (store c))) true) (store c))
       else Component (nodes c) (edges c) (isDragging c)
              (console_log c ++ [[ch]]) (store c))) as [Hm Hg].
    rewrite Hm, Hg.
    destruct d, (isDragging c); simpl; split_and!; try done; by intros [=].
  - simpl. split_and!; try done.
Qed.

Lemma after_node_changes cs : ∀ c,
  history (mgr (store (after (handleNodesChange onNodesChange <$> cs) c)))
    = history (mgr (store c)) ∧
  currentIndex (mgr (store (after (handleNodesChange onNodesChange <$> cs) c)))
    = currentIndex (mgr (store c)) ∧
  (isDragging c = true →
   isDragging (after (handleNodesChange onNodesChange <$> cs) c) = true).
Proof.
  induction cs as [|ch cs IH]; intros c; [done|].
  cbn [fmap list_fmap after foldl].
  destruct (handleNodesChange_step ch c) as (Hh & Hi & Hd & _).
  destruct (IH (handleNodesChange onNodesChange ch c).2) as (Hh' & Hi' & Hd').
  unfold after in *. split_and!; [congruence|congruence|auto].
Qed.

(** X16.  Provided the library's [onNodesChange] cannot reach the reference
    cells of the hook, [handleNodesChange] never changes the history or
    [currentIndex].  When the changes hold a position change with
    [dragging] set, [isDragging] is set afterwards and, if no drag was in
    progress, so is the transaction flag; when they hold none, both cells
    are as before; and once [isDragging] is set, further changes leave both
    cells alone. *)
Theorem handleNodesChange_only_opens_the_transaction ch c :
  history (mgr (store (handleNodesChange onNodesChange ch c).2))
    = history (mgr (store c)) ∧
  currentIndex (mgr (store (handleNodesChange onNodesChange ch c).2))
    = currentIndex (mgr (store c)) ∧
  (isDragging c = true →
   isDragging (handleNodesChange onNodesChange ch c).2 = true ∧
   isTransacting (mgr (store (handleNodesChange onNodesChange ch c).2))
     = isTransacting (mgr (store c))) ∧
  ((array_some position_dragging ch (store c)).1 = Ok true →
   isDragging (handleNodesChange onNodesChange ch c).2 = true ∧
   (isDragging c = false →
    isTransacting (mgr (store (handleNodesChange onNodesChange ch c).2))
      = true)) ∧
  ((array_some position_dragging ch (store c)).1 = Ok false →
   isDragging (handleNodesChange onNodesChange ch c).2 = isDragging c ∧
   isTransacting (mgr (store (handleNodesChange onNodesChange ch c).2))
     = isTransacting (mgr (store c))).
Proof.
  rewrite handleNodesChange_run.
  destruct ((array_some position_dragging ch (store c)).1) as [d|e].
  - destruct (onNodesChange_keeps_refs ch
      (if d && negb (isDragging c)
       then Component (nodes c) (edges c) true (console_log c ++ [[ch]])
              (set_mgr (Refs (history (mgr (store c)))
                             (currentIndex (mgr (store c))) true) (store c))
       else Component (nodes c) (edges c) (isDragging c)
              (console_log c ++ [[ch]]) (store c))) as [Hm Hg].
    rewrite Hm, Hg.
    destruct d, (isDragging c); simpl; split_and!; try done; by intros [=].
  - simpl. split_and!; try done.
Qed.

(** X17.  A whole drag leaves exactly one entry.  Provided the library's
    [onNodesChange] cannot reach the reference cells of the hook: after any
    list of node-change events of which one holds a position change with
    [dragging] set, the history is still the one before the first event;
    and if the diagram then rendered is well-formed, [handleDragEnd]
    returns normally, clears both flags and leaves the history that one
    [addState] of that diagram would have left before the drag began. *)
Theorem drag_gesture_commits_exactly_one_entry cs1 ch cs2 c :
  (array_some position_dragging ch
     (store (after (handleNodesChange onNodesChange <$> cs1) c))).1 = Ok true →
  is_Some (diagram_of
    (heap (store (after (handleNodesChange onNodesChange <$> cs1 ++ ch :: cs2) c)))
    (nodes (after (handleNodesChange onNodesChange <$> cs1 ++ ch :: cs2) c))
    (edges (after (handleNodesChange onNodesChange <$> cs1 ++ ch :: cs2) c))) →
  history (mgr (store
    (after (handleNodesChange onNodesChange <$> cs1 ++ ch :: cs2) c)))
    = history (mgr (store c)) ∧
  ∃ e,
    (handleDragEnd
       (after (handleNodesChange onNodesChange <$> cs1 ++ ch :: cs2) c)).1
      = Ok tt ∧
    isDragging (handleDragEnd
       (after (handleNodesChange onNodesChange <$> cs1 ++ ch :: cs2) c)).2
      = false ∧
    isTransacting (mgr (store (handleDragEnd
       (after (handleNodesChange onNodesChange <$> cs1 ++ ch :: cs2) c)).2))
      = false ∧
    history (mgr (store (handleDragEnd
       (after (handleNodesChange onNodesChange <$> cs1 ++ ch :: cs2) c)).2))
      = pushed (mgr (store c)) e ∧
    snapshot_of (heap (store (handleDragEnd
       (after (handleNodesChange onNodesChange <$> cs1 ++ ch :: cs2) c)).2))
      (VRef e)
    = diagram_of
        (heap (store (after (handleNodesChange onNodesChange <$> cs1 ++ ch :: cs2) c)))
        (nodes (after (handleNodesChange onNodesChange <$> cs1 ++ ch :: cs2) c))
        (edges (after (handleNodesChange onNodesChange <$> cs1 ++ ch :: cs2) c)).
Proof.
  intros Hdrag [d Hdiag]. rewrite Hdiag.
  set (c2 := after (handleNodesChange onNodesChange <$> cs1 ++ ch :: cs2) c) in *.
  set (c1 := after (handleNodesChange onNodesChange <$> cs1) c) in *.
  assert (Hc2 : c2 = after (handleNodesChange onNodesChange <$> cs2)
                       (handleNodesChange onNodesChange ch c1).2).
  { unfold c2, c1, after. by rewrite fmap_app, foldl_app. }
  destruct (after_node_changes cs1 c) as (Hh1 & Hi1 & _). fold c1 in Hh1, Hi1.
  destruct (handleNodesChange_step ch c1) as (Hh & Hi & _ & Hd).
  destruct (after_node_changes cs2 (handleNodesChange onNodesChange ch c1).2)
    as (Hh2 & Hi2 & Hd2).
  rewrite <- Hc2 in Hh2, Hi2, Hd2.
  assert (Hhist : history (mgr (store c2)) = history (mgr (store c)))
    by congruence.
  assert (Hidx : currentIndex (mgr (store c2)) = currentIndex (mgr (store c)))
    by congruence.
  split; [done|].
  destruct (handleDragEnd_dragging c2 d (Hd2 (Hd Hdrag)) Hdiag)
    as (e & H1 & H2 & H3 & H4 & _ & _ & H7 & _).
  exists e. split_and!; try done.
  rewrite H4. by apply pushed_ext.
Qed.

End node_changes.

Lemma ignore_changes_keeps_refs ch : keeps_refs (ignore_changes ch).
Proof. by intros c. Qed.

(** X16 for the first dragging change of a drag. *)
Lemma handleNodesChange_only_opens_the_transaction_witness :
  history (mgr (store (handleNodesChange ignore_changes (VRef 10) demo_component).2))
    = history (mgr (store demo_component)) ∧
  currentIndex
    (mgr (store (handleNodesChange ignore_changes (VRef 10) demo_component).2))
    = currentIndex (mgr (store demo_component)) ∧
  isDragging (handleNodesChange ignore_changes (VRef 10) demo_component).2
    = true ∧
  isTransacting
    (mgr (store (handleNodesChange ignore_changes (VRef 10) demo_component).2))
    = true.
Proof.
  destruct (handleNodesChange_only_opens_the_transaction ignore_changes
              ignore_changes_keeps_refs (VRef 10) demo_component)
    as (H1 & H2 & _ & H4 & _).
  destruct H4 as [H5 H6]; [vm_compute; reflexivity|].
  split_and!; [exact H1|exact H2|exact H5|apply H6; reflexivity].
Defined.

(** X17 for a drag of three change events. *)
Lemma drag_gesture_commits_exactly_one_entry_witness :
  history (mgr (store
    (after (handleNodesChange ignore_changes <$> [] ++ VRef 10 :: [VRef 12; VRef 10])
       demo_component)))
    = history (mgr (store demo_component)) ∧
  ∃ e,
    (handleDragEnd
       (after (handleNodesChange ignore_changes <$> [] ++ VRef 10 :: [VRef 12; VRef 10])
          demo_component)).1 = Ok tt ∧
    isDragging (handleDragEnd
       (after (handleNodesChange ignore_changes <$> [] ++ VRef 10 :: [VRef 12; VRef 10])
          demo_component)).2 = false ∧
    isTransacting (mgr (store (handleDragEnd
       (after (handleNodesChange ignore_changes <$> [] ++ VRef 10 :: [VRef 12; VRef 10])
          demo_component)).2)) = false ∧
    history (mgr (store (handleDragEnd
       (after (handleNodesChange ignore_changes <$> [] ++ VRef 10 :: [VRef 12; VRef 10])
          demo_component)).2))
      = pushed (mgr (store demo_component)) e ∧
    snapshot_of (heap (store (handleDragEnd
       (after (handleNodesChange ignore_changes <$> [] ++ VRef 10 :: [VRef 12; VRef 10])
          demo_component)).2)) (VRef e)
    = diagram_of
        (heap (store
           (after (handleNodesChange ignore_changes <$> [] ++ VRef 10 :: [VRef 12; VRef 10])
              demo_component)))
        (nodes
           (after (handleNodesChange ignore_changes <$> [] ++ VRef 10 :: [VRef 12; VRef 10])
              demo_component))
        (edges
           (after (handleNodesChange ignore_changes <$> [] ++ VRef 10 :: [VRef 12; VRef 10])
              demo_component)).
Proof.
  apply (drag_gesture_commits_exactly_one_entry ignore_changes
           ignore_changes_keeps_refs [] (VRef 10) [VRef 12; VRef 10]
           demo_component).
  - vm_compute. reflexivity.
  - vm_compute. eexists. reflexivity.
Defined.

(** ** Edge changes *)

Section edge_changes.
Context (onEdgesChange : value → E unit).
Hypothesis onEdgesChange_keeps_refs : ∀ ch, keeps_refs (onEdgesChange ch).

(** X18.  Provided the library's [onEdgesChange] cannot reach the reference
    cells of the hook and returns normally, [handleEdgesChange] pushes one
    entry at every call, drag or no drag and whatever the transaction
    flag, which it leaves alone.  The entry is a copy of the diagram the
    handler was rendered with, read after [onEdgesChange] has run: not of
    the nodes and edges that [onEdgesChange] has set for the next render. *)
Theorem handleEdgesChange_pushes_the_rendered_state ch c :
  (onEdgesChange ch c).1 = Ok tt →
  is_Some (diagram_of (heap (store (onEdgesChange ch c).2)) (nodes c) (edges c)) →
  ∃ e,
    (handleEdgesChange onEdgesChange ch c).1 = Ok tt ∧
    history (mgr (store (handleEdgesChange onEdgesChange ch c).2))
      = pushed (mgr (store c)) e ∧
    snapshot_of (heap (store (handleEdgesChange onEdgesChange ch c).2)) (VRef e)
      = diagram_of (heap (store (onEdgesChange ch c).2)) (nodes c) (edges c) ∧
    isTransacting (mgr (store (handleEdgesChange onEdgesChange ch c).2))
      = isTransacting (mgr (store c)) ∧
    isDragging (handleEdgesChange onEdgesChange ch c).2 = isDragging c ∧
    nodes (handleEdgesChange onEdgesChange ch c).2
      = nodes (onEdgesChange ch c).2 ∧
    edges (handleEdgesChange onEdgesChange ch c).2
      = edges (onEdgesChange ch c).2.
Proof.
  intros Hok [[ps es] Hdiag]. rewrite Hdiag.
  destruct (onEdgesChange_keeps_refs ch c) as [Hm Hg].
  pose proof (state_literal_snapshot _ _ _ _ Hdiag) as Hs.
  destruct (onEdgesChange ch c) as [o c1] eqn:Hrun. simpl in *. subst o.
  set (h1 := heap (store c1)
             ++ [CObj {[ "nodes" := nodes c; "edges" := edges c ]}]) in *.
  exists (snapshot_loc (length h1) ps).
  unfold handleEdgesChange. rewrite ebind_run. cbn [rendered].
  rewrite (ebind_ok _ _ _ _ _ Hrun).
  rewrite (ebind_ok _ _ _ _ _ (in_store_ok _ _ _ _ (state_literal_run _ _ _))).
  erewrite ebind_ok; last first.
  { apply in_store_ok. apply (addState_valid _ ps es). exact Hs. }
  cbn. rewrite Hm. split_and!; try done.
  apply snapshot_of_copy.
Qed.

End edge_changes.

(** A stand-in for [onEdgesChange]: it sets another array for the next
    render and nothing else. *)
Lemma setEdges_keeps_refs v (ch : value) : keeps_refs (setEdges v).
Proof. by intros c. Qed.

(** X18 in the middle of a drag, with an [onEdgesChange] that sets other
    edges for the next render. *)
Lemma handleEdgesChange_pushes_the_rendered_state_witness :
  ∃ e,
    (handleEdgesChange (λ _, setEdges (VRef 5)) (VRef 10)
       demo_component_dragging).1 = Ok tt ∧
    history (mgr (store (handleEdgesChange (λ _, setEdges (VRef 5)) (VRef 10)
       demo_component_dragging).2))
      = pushed (mgr (store demo_component_dragging)) e ∧
    snapshot_of (heap (store (handleEdgesChange (λ _, setEdges (VRef 5)) (VRef 10)
       demo_component_dragging).2)) (VRef e)
      = diagram_of
          (heap (store (setEdges (VRef 5) demo_component_dragging).2))
          (nodes demo_component_dragging) (edges demo_component_dragging) ∧
    isTransacting (mgr (store (handleEdgesChange (λ _, setEdges (VRef 5))
       (VRef 10) demo_component_dragging).2))
      = isTransacting (mgr (store demo_component_dragging)) ∧
    isDragging (handleEdgesChange (λ _, setEdges (VRef 5)) (VRef 10)
       demo_component_dragging).2 = isDragging demo_component_dragging ∧
    nodes (handleEdgesChange (λ _, setEdges (VRef 5)) (VRef 10)
       demo_component_dragging).2
      = nodes (setEdges (VRef 5) demo_component_dragging).2 ∧
    edges (handleEdgesChange (λ _, setEdges (VRef 5)) (VRef 10)
       demo_component_dragging).2
      = edges (setEdges (VRef 5) demo_component_dragging).2.
Proof.
  apply (handleEdgesChange_pushes_the_rendered_state (λ _, setEdges (VRef 5))
           (setEdges_keeps_refs (VRef 5)) (VRef 10) demo_component_dragging).
  - reflexivity.
  - vm_compute. eexists. reflexivity.
Defined.

(** ** Undo and redo from the component *)

Lemma handleHistory_null a c :
  (history_op a (store c)).1 = Ok VNull → handleHistory a c = (Ok tt, c).
Proof.
  intros H. unfold handleHistory.
  erewrite ebind_ok; last first.
  { apply in_store_ok. by apply history_op_null. }
  cbn [truthy]. by rewrite set_store_same.
Qed.

Lemma handleHistory_shows a c e ps es :
  (history_op a (store c)).1 = Ok (VRef e) →
  snapshot_of (heap (store c)) (VRef e) = Some (ps, es) →
  handleHistory a c =
  (Ok tt, showing ps es (set_store (history_op a (store c)).2 c)).
Proof.
  intros Hop Hs.
  pose proof (history_op_heap a (store c)) as Hheap.
  destruct (history_op a (store c)) as [o w1] eqn:Hrun.
  simpl in Hop, Hheap. subst o.
  apply snapshot_of_inv in Hs
    as (l & m & na & ns & ea & [= <-] & Hl & Hn & Hna & He & Hea & Hp).
  unfold handleHistory.
  rewrite (ebind_ok _ _ _ _ _ (in_store_ok _ _ _ _ Hrun)).
  cbn [truthy].
  erewrite ebind_ok; last first.
  { apply in_store_ok. unfold prop, lift. cbn [store set_store get_prop].
    rewrite Hheap, Hl, Hn. simpl. reflexivity. }
  erewrite ebind_ok; last first.
  { apply in_store_ok. cbn [store set_store].
    apply (array_map_spread_spec na ns ps); by rewrite Hheap. }
  rewrite ebind_run.
  cbn [setNodes set_store nodes edges isDragging console_log store].
  erewrite ebind_ok; last first.
  { apply in_store_ok. unfold prop, lift.
    cbn [store set_store get_prop heap set_heap].
    rewrite <- app_assoc, Hheap.
    rewrite (lookup_app_l_Some _ _ _ _ Hl), He. simpl. reflexivity. }
  erewrite ebind_ok; last first.
  { apply in_store_ok. cbn [store set_store heap set_heap].
    apply array_spread_spec. cbn [heap set_heap].
    by apply lookup_app_l_Some. }
  unfold setEdges, showing.
  cbn [set_store nodes edges isDragging console_log store heap set_heap
       mgr console fst snd].
  rewrite Hheap. unfold set_heap, shown_cells. cbn [heap mgr console].
  rewrite !length_app, length_fmap. cbn [length].
  rewrite <- !app_assoc. cbn [app].
  by rewrite ?Nat.add_assoc.
Qed.

(** X19.  In a reachable world whose entries are well-formed snapshots,
    [handleHistory] never throws.  When [undo] (or [redo]) returns [null]
    it leaves the component exactly as it was.  Otherwise the entry
    returned is the current one afterwards, and the nodes and edges set for
    the next render are newly allocated arrays (with newly allocated node
    records) holding the content of that entry, which itself is left as it
    was stored. *)
Theorem handleHistory_shows_a_copy_of_the_entry (a : action) (c : component) :
  reachable (store c) →
  Forall (λ e, is_Some (snapshot_of (heap (store c)) (VRef e)))
         (history (mgr (store c))) →
  handleHistory a c = (Ok tt, c) ∧ (history_op a (store c)).1 = Ok VNull
  ∨
  ∃ e ps es,
    (history_op a (store c)).1 = Ok (VRef e) ∧
    e ∈ history (mgr (store c)) ∧
    snapshot_of (heap (store c)) (VRef e) = Some (ps, es) ∧
    handleHistory a c =
      (Ok tt, showing ps es (set_store (history_op a (store c)).2 c)) ∧
    getCurrentState (store (handleHistory a c).2)
      = (Ok (VRef e), store (handleHistory a c).2) ∧
    diagram_of (heap (store (handleHistory a c).2))
      (nodes (handleHistory a c).2) (edges (handleHistory a c).2)
      = Some (ps, es) ∧
    snapshot_of (heap (store (handleHistory a c).2)) (VRef e) = Some (ps, es).
Proof.
  intros Hr Hv.
  destruct (history_op_outcome a _ Hr) as [Hnull|(e & He & Hin & Hcur)].
  - left. split; [by apply handleHistory_null|done].
  - right. rewrite Forall_forall in Hv. destruct (Hv e Hin) as [[ps es] Hs].
    exists e, ps, es.
    rewrite (handleHistory_shows a c e ps es He Hs). cbn [snd].
    split_and!; [done|done|done|done| | |].
    + rewrite getCurrentState_unfold in *. cbn in *. congruence.
    + apply diagram_of_showing.
    + unfold showing. cbn [store heap set_heap set_store].
      rewrite history_op_heap. by apply snapshot_of_app.
Qed.

(** X19 for an undo from the second of two entries. *)
Lemma handleHistory_shows_a_copy_of_the_entry_witness :
  handleHistory ActUndo demo_component_two = (Ok tt, demo_component_two) ∧
    (history_op ActUndo (store demo_component_two)).1 = Ok VNull
  ∨
  ∃ e ps es,
    (history_op ActUndo (store demo_component_two)).1 = Ok (VRef e) ∧
    e ∈ history (mgr (store demo_component_two)) ∧
    snapshot_of (heap (store demo_component_two)) (VRef e) = Some (ps, es) ∧
    handleHistory ActUndo demo_component_two =
      (Ok tt,
       showing ps es
         (set_store (history_op ActUndo (store demo_component_two)).2
            demo_component_two)) ∧
    getCurrentState (store (handleHistory ActUndo demo_component_two).2)
      = (Ok (VRef e), store (handleHistory ActUndo demo_component_two).2) ∧
    diagram_of (heap (store (handleHistory ActUndo demo_component_two).2))
      (nodes (handleHistory ActUndo demo_component_two).2)
      (edges (handleHistory ActUndo demo_component_two).2)
      = Some (ps, es) ∧
    snapshot_of (heap (store (handleHistory ActUndo demo_component_two).2))
      (VRef e) = Some (ps, es).
Proof.
  apply (handleHistory_shows_a_copy_of_the_entry ActUndo demo_component_two).
  - apply (reach_call (AddState demo_state)).
    apply (reach_call (Initialize demo_state)). apply reach_start.
  - vm_compute. repeat constructor; eexists; reflexivity.
Defined.

(** ** A click on the timeline *)

Lemma timelineClick_keeps_refs item : keeps_refs (timelineClick item).
Proof.
  unfold timelineClick.
  apply keeps_refs_bind; [apply keeps_refs_in_store, heap_only_lift|]. intros st.
  apply keeps_refs_bind; [apply keeps_refs_in_store, heap_only_lift|]. intros tn.
  apply keeps_refs_bind; [apply keeps_refs_in_store, heap_only_lift|]. intros te.
  destruct (truthy tn && truthy te); [|apply keeps_refs_ret].
  apply keeps_refs_bind;
    [apply keeps_refs_in_store, heap_only_array_map_spread|]. intros na.
  apply keeps_refs_bind; [by intros c|]. intros _.
  apply keeps_refs_bind;
    [apply keeps_refs_in_store, heap_only_array_spread|]. intros ea.
  by intros c.
Qed.

(** X20.  A click on a timeline dot never moves [currentIndex] nor changes
    the history or the flags, whatever the item and whether the handler
    returns or throws: the dot stays where it was and the next [undo]
    starts from the old index.  When the item's [state] is a well-formed
    snapshot, the handler returns normally and sets, for the next render,
    newly allocated arrays and node records holding that snapshot's
    content. *)
Theorem timelineClick_shows_without_moving (item : value) (c : component) :
  mgr (store (timelineClick item c).2) = mgr (store c) ∧
  isDragging (timelineClick item c).2 = isDragging c ∧
  ∀ st,
    get_prop (heap (store c)) item "state" = Ok st →
    is_Some (snapshot_of (heap (store c)) st) →
    ∃ ps es,
      snapshot_of (heap (store c)) st = Some (ps, es) ∧
      timelineClick item c = (Ok tt, showing ps es c) ∧
      diagram_of (heap (store (timelineClick item c).2))
        (nodes (timelineClick item c).2) (edges (timelineClick item c).2)
        = Some (ps, es).
Proof.
  destruct (timelineClick_keeps_refs item c) as [Hm Hd].
  split; [done|]. split; [done|].
  intros st Hst [[ps es] Hs]. exists ps, es. split; [done|].
  apply snapshot_of_inv in Hs
    as (l & m & na & ns & ea & -> & Hl & Hn & Hna & He & Hea & Hp).
  assert (Hrun : timelineClick item c = (Ok tt, showing ps es c)).
  { unfold timelineClick.
    erewrite ebind_ok; last first.
    { apply in_store_ok. unfold prop, lift. by rewrite Hst. }
    rewrite set_store_same.
    erewrite ebind_ok; last first.
    { apply in_store_ok. unfold prop, lift. cbn [get_prop].
      rewrite Hl, Hn. simpl. reflexivity. }
    rewrite set_store_same.
    erewrite ebind_ok; last first.
    { apply in_store_ok. unfold prop, lift. cbn [get_prop].
      rewrite Hl, He. simpl. reflexivity. }
    rewrite set_store_same. cbn [truthy andb].
    erewrite ebind_ok; last first.
    { apply in_store_ok. by apply (array_map_spread_spec na ns ps). }
    rewrite ebind_run.
    cbn [setNodes set_store nodes edges isDragging console_log store].
    erewrite ebind_ok; last first.
    { apply in_store_ok. apply array_spread_spec. cbn [heap set_heap].
      rewrite <- app_assoc. by apply lookup_app_l_Some. }
    unfold setEdges, showing.
    cbn [set_store nodes edges isDragging console_log store heap set_heap
         mgr console].
    unfold set_heap, shown_cells. cbn [heap mgr console].
    rewrite !length_app, length_fmap. cbn [length].
    rewrite <- !app_assoc. cbn [app].
    by rewrite ?Nat.add_assoc. }
  rewrite Hrun. split; [done|]. apply diagram_of_showing.
Qed.

(** X20 for the only item of a timeline of one entry. *)
Lemma timelineClick_shows_without_moving_witness :
  ∃ ps es,
    snapshot_of (heap (store demo_component_timeline)) (VRef 18)
      = Some (ps, es) ∧
    timelineClick (VRef 19) demo_component_timeline
      = (Ok tt, showing ps es demo_component_timeline) ∧
    diagram_of
      (heap (store (timelineClick (VRef 19) demo_component_timeline).2))
      (nodes (timelineClick (VRef 19) demo_component_timeline).2)
      (edges (timelineClick (VRef 19) demo_component_timeline).2)
      = Some (ps, es).
Proof.
  destruct (timelineClick_shows_without_moving (VRef 19) demo_component_timeline)
    as (_ & _ & H).
  apply H.
  - vm_compute. reflexivity.
  - vm_compute. eexists. reflexivity.
Defined.

(** ** The effect run on mount *)

(** X21.  Run on a well-formed rendered diagram, from any component state,
    the mount effect returns normally, leaves a history of exactly one
    entry, a copy of the diagram as rendered, with [currentIndex] 0, and
    sets the module's initial nodes and edges for the next render; it
    touches neither [isDragging] nor the transaction flag. *)
Theorem onMount_seeds_the_history (initialNodes initialEdges : value)
  (c : component) :
  is_Some (diagram_of (heap (store c)) (nodes c) (edges c)) →
  ∃ e,
    (onMount initialNodes initialEdges c).1 = Ok tt ∧
    mgr (store (onMount initialNodes initialEdges c).2)
      = Refs [e] 0 (isTransacting (mgr (store c))) ∧
    snapshot_of (heap (store (onMount initialNodes initialEdges c).2)) (VRef e)
      = diagram_of (heap (store c)) (nodes c) (edges c) ∧
    nodes (onMount initialNodes initialEdges c).2 = initialNodes ∧
    edges (onMount initialNodes initialEdges c).2 = initialEdges ∧
    isDragging (onMount initialNodes initialEdges c).2 = isDragging c.
Proof.
  intros [[ps es] Hdiag]. rewrite Hdiag.
  pose proof (state_literal_snapshot _ _ _ _ Hdiag) as Hs.
  set (h1 := heap (store c)
             ++ [CObj {[ "nodes" := nodes c; "edges" := edges c ]}]) in *.
  exists (snapshot_loc (length h1) ps).
  unfold onMount. rewrite ebind_run. cbn [rendered].
  rewrite (ebind_ok _ _ _ _ _ (in_store_ok _ _ _ _ (state_literal_run _ _ _))).
  erewrite ebind_ok; last first.
  { apply in_store_ok. rewrite initialize_unfold.
    cbn [heap set_heap]. fold h1.
    rewrite (snapshot_literal_spec _ ps es); [reflexivity|exact Hs]. }
  cbn. split_and!; try done.
  apply snapshot_of_copy.
Qed.

(** X21 for a second mount, on a history that already holds two entries. *)
Lemma onMount_seeds_the_history_witness :
  ∃ e,
    (onMount (VRef 5) (VRef 6) demo_component_two).1 = Ok tt ∧
    mgr (store (onMount (VRef 5) (VRef 6) demo_component_two).2)
      = Refs [e] 0 (isTransacting (mgr (store demo_component_two))) ∧
    snapshot_of (heap (store (onMount (VRef 5) (VRef 6) demo_component_two).2))
      (VRef e)
      = diagram_of (heap (store demo_component_two))
          (nodes demo_component_two) (edges demo_component_two) ∧
    nodes (onMount (VRef 5) (VRef 6) demo_component_two).2 = VRef 5 ∧
    edges (onMount (VRef 5) (VRef 6) demo_component_two).2 = VRef 6 ∧
    isDragging (onMount (VRef 5) (VRef 6) demo_component_two).2
      = isDragging demo_component_two.
Proof.
  apply (onMount_seeds_the_history (VRef 5) (VRef 6) demo_component_two).
  vm_compute. eexists. reflexivity.
Defined.
